(** * User-registration backend: ingestion pipeline, read path and health checks

    A shallow embedding of the Node.js backend
    (config/redis.js, config/database.js, config/kafka.js,
    services/userService.js, routes/userRoutes.js, routes/healthRoutes.js)
    together with the properties of the pipeline that the specification
    states about it.

    Conventions of the embedding.
    - The three external stores and the module-level handles
      ([redisClient], [pool], [producer], [consumer]) are fields of one
      [World]; an [async] function is a state-and-exception computation
      [M A] over it.  Effects performed before an exception is thrown stay
      in the world, as in the source.
    - An unreachable dependency is a [*_fault] field of the world: when it
      is [Some m], every command sent to that dependency rejects with
      [Error m].
    - JSON texts are kept as the values they denote ([JSON.stringify]
      followed by [JSON.parse] is the identity on them); a [Date] and its
      ISO-8601 text are both the instant, a number of milliseconds.
    - JavaScript string length is [String.length].
    - A JavaScript number that is an integer is the integer its decimal
      text denotes, which is the text the driver sends for it. *)

From Stdlib Require Import ZArith Ascii String List Lia Bool.
From Stdlib Require Import Sorted Permutation.
From stdpp Require Import base option list gmap strings pretty sorting.

Local Open Scope Z_scope.

(* ================================================================== *)
(** * JavaScript values *)
(* ================================================================== *)

(** Scalar values as they occur in parsed JSON bodies. *)
Inductive jsval : Type :=
| JNull
| JBool (b : bool)
| JNum (n : Z)
| JStr (s : string).

(** A (flat) object: its own properties in insertion order. *)
Definition jsobj : Type := list (string * jsval).

(** [o[k]]; [None] is [undefined]. *)
Fixpoint prop (o : jsobj) (k : string) : option jsval :=
  match o with
  | [] => None
  | (k', v) :: o' => if String.eqb k' k then Some v else prop o' k
  end.

(** [new Error(message)]. *)
Inductive error : Type := Error (message : string).

(** [error.message] *)
Definition error_message (e : error) : string := let 'Error m := e in m.

Inductive outcome (A : Type) : Type :=
| Return (a : A)
| Throw (e : error).
Arguments Return {A} a.
Arguments Throw {A} e.

Definition dquote : string := String (ascii_of_nat 34) EmptyString.

(** [`${v}`] for a property value. *)
Definition template (v : option jsval) : string :=
  match v with
  | None => "undefined"
  | Some JNull => "null"
  | Some (JBool true) => "true"
  | Some (JBool false) => "false"
  | Some (JNum n) => pretty n
  | Some (JStr s) => s
  end.

(* ================================================================== *)
(** * Data model *)
(* ================================================================== *)

(** The value returned by [userSchema.validate]: the six validated strings. *)
Record User : Type := mkUser {
  firstName : string;
  lastName : string;
  email : string;
  gender : string;
  sex : string;
  occupation : string
}.

Definition user_obj (u : User) : jsobj :=
  [ ("firstName", JStr (firstName u)); ("lastName", JStr (lastName u));
    ("email", JStr (email u)); ("gender", JStr (gender u));
    ("sex", JStr (sex u)); ("occupation", JStr (occupation u)) ].

(** A row of the [users] table. *)
Record Row : Type := mkRow {
  id : Z;
  first_name : string;
  last_name : string;
  row_email : string;
  row_gender : string;
  row_sex : string;
  row_occupation : string;
  created_at : Z;
  updated_at : Z
}.


(** The JSON documents the service writes to Redis. *)
Inductive doc : Type :=
| DUser (u : User)                  (* JSON.stringify(validatedData) *)
| DSaved (savedAt : Z) (r : option Row)  (* JSON.stringify({ savedAt, ...rows[0] }) *)
| DRow (r : Row).                   (* JSON.stringify(row) *)

(** A Redis key with its expiry instant (milliseconds). *)
Record Entry : Type := mkEntry { value : doc; expires_at : Z }.

(** The text of a Kafka message value. *)
Inductive payload : Type :=
| Json (o : jsobj)          (* a JSON text denoting the object [o] *)
| Malformed (raw : string). (* bytes that [JSON.parse] rejects *)

Record Message : Type := mkMessage {
  msg_key : option string;
  msg_value : payload;
  msg_timestamp : Z
}.

(** Module-level connection handles are either [null] or an object. *)
Inductive handle : Type := Handle.
Definition truthy (h : handle) : bool := true.

Inductive stream : Type := Stdout | Stderr.
Record LogLine : Type := mkLog { log_stream : stream; log_text : string; log_arg : option string }.

Record Redis : Type := mkRedis {
  redisClient : option handle;
  redis_fault : option string;
  store : gmap string Entry
}.

Record Postgres : Type := mkPostgres {
  pool : option handle;
  pg_fault : option string;
  users : list Row;           (* the table, in insertion order *)
  users_id_seq : Z            (* last value of the SERIAL sequence *)
}.

Record Kafka : Type := mkKafka {
  producer : option handle;
  consumer : option handle;
  broker_fault : option string;
  topics : gmap string (list Message);   (* the log of each topic *)
  committed : nat                        (* group offset on user-registration *)
}.

Record World : Type := mkWorld {
  clock : Z;                  (* Date.now(), CURRENT_TIMESTAMP *)
  redis : Redis;
  postgres : Postgres;
  kafka : Kafka;
  console : list LogLine      (* most recent line first *)
}.

Definition with_redis (r : Redis) (w : World) : World :=
  mkWorld (clock w) r (postgres w) (kafka w) (console w).
Definition with_postgres (p : Postgres) (w : World) : World :=
  mkWorld (clock w) (redis w) p (kafka w) (console w).
Definition with_kafka (k : Kafka) (w : World) : World :=
  mkWorld (clock w) (redis w) (postgres w) k (console w).
Definition with_console (c : list LogLine) (w : World) : World :=
  mkWorld (clock w) (redis w) (postgres w) (kafka w) c.
Definition with_clock (t : Z) (w : World) : World :=
  mkWorld t (redis w) (postgres w) (kafka w) (console w).

Definition with_store (s : gmap string Entry) (r : Redis) : Redis :=
  mkRedis (redisClient r) (redis_fault r) s.
Definition with_table (rows : list Row) (seq : Z) (p : Postgres) : Postgres :=
  mkPostgres (pool p) (pg_fault p) rows seq.
Definition with_topics (t : gmap string (list Message)) (k : Kafka) : Kafka :=
  mkKafka (producer k) (consumer k) (broker_fault k) t (committed k).
Definition with_committed (n : nat) (k : Kafka) : Kafka :=
  mkKafka (producer k) (consumer k) (broker_fault k) (topics k) n.
Definition with_handles (p c : option handle) (k : Kafka) : Kafka :=
  mkKafka p c (broker_fault k) (topics k) (committed k).

(** The environment: time passes, dependencies go away and come back. *)
Definition with_redis_fault (f : option string) (w : World) : World :=
  with_redis (mkRedis (redisClient (redis w)) f (store (redis w))) w.
Definition with_pg_fault (f : option string) (w : World) : World :=
  with_postgres (mkPostgres (pool (postgres w)) f (users (postgres w))
                   (users_id_seq (postgres w))) w.
Definition with_broker_fault (f : option string) (w : World) : World :=
  with_kafka (mkKafka (producer (kafka w)) (consumer (kafka w)) f
                (topics (kafka w)) (committed (kafka w))) w.

(* ================================================================== *)
(** * Async functions: state and exceptions *)
(* ================================================================== *)

Definition M (A : Type) : Type := World -> outcome A * World.

Definition ret {A} (a : A) : M A := fun w => (Return a, w).
Definition throw {A} (e : error) : M A := fun w => (Throw e, w).
Definition bind {A B} (m : M A) (k : A -> M B) : M B :=
  fun w => match m w with
           | (Return a, w') => k a w'
           | (Throw e, w') => (Throw e, w')
           end.
(** [try { m } catch (error) { h error }] *)
Definition try_catch {A} (m : M A) (h : error -> M A) : M A :=
  fun w => match m w with
           | (Return a, w') => (Return a, w')
           | (Throw e, w') => h e w'
           end.
(** [try { m } finally { f }] *)
Definition try_finally {A} (m : M A) (f : M unit) : M A :=
  fun w => match m w with
           | (r, w') => match f w' with
                        | (Return _, w'') => (r, w'')
                        | (Throw e, w'') => (Throw e, w'')
                        end
           end.
(** Lift a synchronous computation that may throw. *)
Definition lift {A} (r : outcome A) : M A := fun w => (r, w).

Declare Scope async_scope.
Delimit Scope async_scope with async.
Notation "x <~ m ; k" := (bind m (fun x => k))
  (at level 20, m at level 100, k at level 200, only parsing) : async_scope.
Notation "'await' m ; k" := (bind m (fun _ => k))
  (at level 20, m at level 100, k at level 200, only parsing) : async_scope.
Local Open Scope async_scope.

Definition console_log (text : string) (arg : option string) : M unit :=
  fun w => (Return tt, with_console (mkLog Stdout text arg :: console w) w).
Definition console_error (text : string) (arg : option string) : M unit :=
  fun w => (Return tt, with_console (mkLog Stderr text arg :: console w) w).

Definition Date_now : M Z := fun w => (Return (clock w), w).

(** The result a computation leaves, and the world it leaves. *)
Definition result {A} (m : M A) (w : World) : outcome A := fst (m w).
Definition after {A} (m : M A) (w : World) : World := snd (m w).


(* ================================================================== *)
(** * The client libraries: redis, pg, kafkajs *)
(* ================================================================== *)

(** Commands of the [redis] client, as far as the service uses them. *)
Module redis_client.

Definition command {A} (f : Z -> gmap string Entry -> A * gmap string Entry) : M A :=
  fun w =>
    match redis_fault (redis w) with
    | Some m => (Throw (Error m), w)
    | None =>
        let '(a, s) := f (clock w) (store (redis w)) in
        (Return a, with_redis (with_store s (redis w)) w)
    end.

(** [SETEX key seconds value] *)
Definition setEx (key : string) (seconds : Z) (v : doc) : M unit :=
  command (fun now s => (tt, <[key := mkEntry v (now + 1000 * seconds)]> s)).

(** What [GET key] sees at instant [now]: expired keys are gone. *)
Definition live (now : Z) (s : gmap string Entry) (key : string) : option doc :=
  match s !! key with
  | Some e => if now <? expires_at e then Some (value e) else None
  | None => None
  end.

Definition get (key : string) : M (option doc) :=
  command (fun now s => (live now s key, s)).

Definition del (key : string) : M unit :=
  command (fun now s => (tt, delete key s)).

Definition ping : M unit :=
  command (fun now s => (tt, s)).

End redis_client.

(** The [users] table and the statements the service sends through [pg]. *)
Module pg.

(** CREATE TABLE users: the VARCHAR limits of the six text columns,
    all NOT NULL, [email] UNIQUE, [id] SERIAL, both timestamps
    DEFAULT CURRENT_TIMESTAMP. *)
Definition first_name_limit : nat := 100.
Definition last_name_limit : nat := 100.
Definition email_limit : nat := 255.
Definition gender_limit : nat := 50.
Definition sex_limit : nat := 50.
Definition occupation_limit : nat := 255.

Fixpoint all_spaces (s : string) : bool :=
  match s with
  | EmptyString => true
  | String c s' => Ascii.eqb c " " && all_spaces s'
  end.

(** A text parameter as the server takes it from the Bind message,
    before the statement runs: text cannot hold the character U+0000. *)
Fixpoint has_nul (s : string) : bool :=
  match s with
  | EmptyString => false
  | String c s' => Ascii.eqb c Ascii.zero || has_nul s'
  end.

Definition text (v : option string) : outcome (option string) :=
  match v with
  | None => Return None
  | Some s =>
      if has_nul s
      then Throw (Error ("invalid byte sequence for encoding " +:+ dquote +:+ "UTF8"
                         +:+ dquote +:+ ": 0x00"))
      else Return (Some s)
  end.

(** A number parameter of type bigint (LIMIT and OFFSET take one) as the
    server reads it from its decimal text.  (From 10^21 on the driver
    writes a number with an exponent; the server refuses that text as
    well, with another message.) *)
Definition bigint_min : Z := -9223372036854775808.
Definition bigint_max : Z := 9223372036854775807.

Definition bigint (n : Z) : outcome Z :=
  if (n <? bigint_min) || (bigint_max <? n)
  then Throw (Error ("value " +:+ dquote +:+ pretty n +:+ dquote
                     +:+ " is out of range for type bigint"))
  else Return n.

(** Assignment of a text the server has taken to a VARCHAR(n) column:
    too long a value is an error, unless the excess is spaces only, which
    are cut off. *)
Definition varchar (n : nat) (v : option string) : outcome (option string) :=
  match v with
  | None => Return None
  | Some s =>
      if (String.length s <=? n)%nat then Return (Some s)
      else if all_spaces (String.substring n (String.length s - n) s)
           then Return (Some (String.substring 0 n s))
           else Throw (Error ("value too long for type character varying("
                              +:+ pretty n +:+ ")"))
  end.

Definition not_null (column : string) (v : option string) : outcome string :=
  match v with
  | Some s => Return s
  | None => Throw (Error ("null value in column " +:+ dquote +:+ column +:+ dquote
                          +:+ " of relation " +:+ dquote +:+ "users" +:+ dquote
                          +:+ " violates not-null constraint"))
  end.

Definition obind {A B} (r : outcome A) (k : A -> outcome B) : outcome B :=
  match r with
  | Return a => k a
  | Throw e => Throw e
  end.

(** node-pg's conversion of a query parameter: [null] and [undefined]
    become NULL, everything else its text. *)
Definition param (v : option jsval) : option string :=
  match v with
  | None | Some JNull => None
  | Some _ => Some (template v)
  end.

Definition has_email (e : string) (r : Row) : bool := String.eqb (row_email r) e.

(** The six values of the row proposed for insertion. *)
Record proposal : Type := mkProposal {
  p_first_name : string;
  p_last_name : string;
  p_email : string;
  p_gender : string;
  p_sex : string;
  p_occupation : string
}.

(** The six parameters as the server takes them, in parameter order. *)
Definition bind_texts (v1 v2 v3 v4 v5 v6 : option string)
  : outcome (option string * option string * option string
             * option string * option string * option string) :=
  obind (text v1) (fun t1 =>
  obind (text v2) (fun t2 =>
  obind (text v3) (fun t3 =>
  obind (text v4) (fun t4 =>
  obind (text v5) (fun t5 =>
  obind (text v6) (fun t6 =>
  Return (t1, t2, t3, t4, t5, t6))))))).

(** The parameters assigned to their columns, in column order. *)
Definition propose (v1 v2 v3 v4 v5 v6 : option string)
  : outcome (option string * option string * option string
             * option string * option string * option string) :=
  obind (bind_texts v1 v2 v3 v4 v5 v6) (fun '(t1, t2, t3, t4, t5, t6) =>
  obind (varchar first_name_limit t1) (fun c1 =>
  obind (varchar last_name_limit t2) (fun c2 =>
  obind (varchar email_limit t3) (fun c3 =>
  obind (varchar gender_limit t4) (fun c4 =>
  obind (varchar sex_limit t5) (fun c5 =>
  obind (varchar occupation_limit t6) (fun c6 =>
  Return (c1, c2, c3, c4, c5, c6)))))))).

(** The NOT NULL constraints, in column order. *)
Definition constrain (c1 c2 c3 c4 c5 c6 : option string) : outcome proposal :=
  obind (not_null "first_name" c1) (fun fn =>
  obind (not_null "last_name" c2) (fun ln =>
  obind (not_null "email" c3) (fun e =>
  obind (not_null "gender" c4) (fun g =>
  obind (not_null "sex" c5) (fun s =>
  obind (not_null "occupation" c6) (fun o =>
  Return (mkProposal fn ln e g s o))))))).

(** DO UPDATE SET ... = EXCLUDED. ..., updated_at = CURRENT_TIMESTAMP *)
Definition do_update (p : proposal) (now : Z) (r : Row) : Row :=
  mkRow (id r) (p_first_name p) (p_last_name p) (row_email r) (p_gender p)
        (p_sex p) (p_occupation p) (created_at r) now.

Fixpoint on_conflict_update (p : proposal) (now : Z) (rows : list Row) : list Row :=
  match rows with
  | [] => []
  | r :: rows' =>
      if has_email (p_email p) r then do_update p now r :: rows'
      else r :: on_conflict_update p now rows'
  end.

(** The proposed row meets the table: the row with its email is
    updated in place, or the proposed row is appended.  Returns the
    row of RETURNING * and the new table. *)
Definition upsert (p : proposal) (now : Z) (rows : list Row) (new_id : Z)
  : Row * list Row :=
  match List.find (has_email (p_email p)) rows with
  | Some r => (do_update p now r, on_conflict_update p now rows)
  | None =>
      let r := mkRow new_id (p_first_name p) (p_last_name p) (p_email p)
                     (p_gender p) (p_sex p) (p_occupation p) now now in
      (r, rows ++ [r])
  end.

(** INSERT INTO users (...) VALUES ($1..$6) ON CONFLICT (email) DO UPDATE
    ... RETURNING *.  The state is the table and the last value of the
    [id] sequence, whose next value is taken for the proposed row
    whether or not it is inserted; a statement that fails leaves the
    table as it was. *)
Definition insert_user (v1 v2 v3 v4 v5 v6 : option string) (now : Z)
    (rows : list Row) (seq : Z) : outcome (list Row) * (list Row * Z) :=
  match propose v1 v2 v3 v4 v5 v6 with
  | Throw e => (Throw e, (rows, seq))
  | Return (c1, c2, c3, c4, c5, c6) =>
      let new_id := seq + 1 in
      match constrain c1 c2 c3 c4 c5 c6 with
      | Throw e => (Throw e, (rows, new_id))
      | Return p =>
          let '(r, rows') := upsert p now rows new_id in
          (Return [r], (rows', new_id))
      end
  end.

(** ORDER BY created_at DESC, by insertion. *)
Fixpoint insert_desc (r : Row) (rows : list Row) : list Row :=
  match rows with
  | [] => [r]
  | r' :: rows' =>
      if created_at r' <=? created_at r then r :: r' :: rows'
      else r' :: insert_desc r rows'
  end.

Fixpoint order_by_created_at_desc (rows : list Row) : list Row :=
  match rows with
  | [] => []
  | r :: rows' => insert_desc r (order_by_created_at_desc rows')
  end.

(** SELECT ... FROM users ORDER BY created_at DESC LIMIT $1 OFFSET $2:
    both parameters are read as bigint; the executor then refuses a
    negative offset and a negative limit. *)
Definition select_page (limit offset : Z) (rows : list Row) : outcome (list Row) :=
  obind (bigint limit) (fun limit =>
  obind (bigint offset) (fun offset =>
  if offset <? 0 then Throw (Error "OFFSET must not be negative")
  else if limit <? 0 then Throw (Error "LIMIT must not be negative")
  else Return (firstn (Z.to_nat limit)
                 (skipn (Z.to_nat offset) (order_by_created_at_desc rows))))).

(** The rows WHERE email = e. *)
Definition select_by_email (e : string) (rows : list Row) : list Row :=
  List.filter (has_email e) rows.

(** SELECT ... FROM users WHERE email = $1: the parameter as the server
    takes it, then the rows. *)
Definition select_user (e : string) (rows : list Row) : outcome (list Row) :=
  obind (text (Some e)) (fun _ => Return (select_by_email e rows)).

Inductive statement : Type :=
| InsertUser (v1 v2 v3 v4 v5 v6 : option string)
| SelectPage (limit offset : Z)
| SelectByEmail (e : string)
| Select1.

Definition execute (st : statement) (now : Z) (rows : list Row) (seq : Z)
  : outcome (list Row) * (list Row * Z) :=
  match st with
  | InsertUser v1 v2 v3 v4 v5 v6 => insert_user v1 v2 v3 v4 v5 v6 now rows seq
  | SelectPage limit offset => (select_page limit offset rows, (rows, seq))
  | SelectByEmail e => (select_user e rows, (rows, seq))
  | Select1 => (Return [], (rows, seq))
  end.

(** [pool.connect()] on a pool object: rejects when the server is
    unreachable. *)
Definition connect : M handle :=
  fun w => match pg_fault (postgres w) with
           | Some m => (Throw (Error m), w)
           | None => (Return Handle, w)
           end.

(** [client.query(text, params)] *)
Definition client_query (st : statement) : M (list Row) :=
  fun w =>
    let p := postgres w in
    let '(r, (rows, seq)) := execute st (clock w) (users p) (users_id_seq p) in
    (r, with_postgres (with_table rows seq p) w).

Definition release : M unit := ret tt.

(** [pool.query(text)]: connect, query, release. *)
Definition pool_query (st : statement) : M (list Row) :=
  _ <~ connect; client_query st.

End pg.

(* ================================================================== *)
(** * config/redis.js *)
(* ================================================================== *)

Definition getRedisClient : M handle :=
  fun w => match redisClient (redis w) with
           | Some h => (Return h, w)
           | None => (Throw (Error "Redis client not initialized. Call connectRedis() first."), w)
           end.

(* ================================================================== *)
(** * config/database.js *)
(* ================================================================== *)

Definition getPool : M handle :=
  fun w => match pool (postgres w) with
           | Some h => (Return h, w)
           | None => (Throw (Error "Database pool not initialized. Call connectDatabase() first."), w)
           end.

(** [query(text, params)]: [pool.connect()] is outside the [try]; on a
    [null] pool the property access is a TypeError. *)
Definition query (st : pg.statement) : M (list Row) :=
  _ <~ (fun w => match pool (postgres w) with
                 | Some _ => pg.connect w
                 | None => (Throw (Error "Cannot read properties of null (reading 'connect')"), w)
                 end);
  try_finally
    (try_catch (pg.client_query st)
       (fun e => await console_error "Database query error:" (Some (error_message e));
                 throw e))
    pg.release.

(* ================================================================== *)
(** * config/kafka.js: producer side *)
(* ================================================================== *)

Module kafkajs.

Definition log_of (topic : string) (k : Kafka) : list Message :=
  default [] (topics k !! topic).

(** [producer.send({ topic, messages })]: resolves once the broker has
    taken the messages, rejects (after the client's own retries) when
    the broker cannot be reached. *)
Definition send (topic : string) (messages : list Message) : M unit :=
  fun w =>
    let k := kafka w in
    match broker_fault k with
    | Some m => (Throw (Error m), w)
    | None =>
        (Return tt,
         with_kafka (with_topics (<[topic := log_of topic k ++ messages]> (topics k)) k) w)
    end.

(** [producer.connect()], [consumer.connect()], [consumer.subscribe()] *)
Definition connect : M unit :=
  fun w => match broker_fault (kafka w) with
           | Some m => (Throw (Error m), w)
           | None => (Return tt, w)
           end.

End kafkajs.

Definition set_producer (h : handle) : M unit :=
  fun w => (Return tt, with_kafka (with_handles (Some h) (consumer (kafka w)) (kafka w)) w).
Definition set_consumer (h : handle) : M unit :=
  fun w => (Return tt, with_kafka (with_handles (producer (kafka w)) (Some h) (kafka w)) w).

Definition sendMessage (topic : string) (message : jsobj) : M unit :=
  fun w =>
    match producer (kafka w) with
    | None => (Throw (Error "Kafka producer not initialized"), w)
    | Some _ =>
        try_catch
          (now <~ Date_now;
           await kafkajs.send topic
                   [ {| msg_key := None; msg_value := Json message; msg_timestamp := now |} ];
           console_log ("Message sent to Kafka topic: " +:+ topic) None)
          (fun e => await console_error "Error sending message to Kafka:" (Some (error_message e));
                    throw e)
          w
    end.

Definition getProducer : M handle :=
  fun w => match producer (kafka w) with
           | Some h => (Return h, w)
           | None => (Throw (Error "Kafka producer not initialized"), w)
           end.

(* ================================================================== *)
(** * joi: string schemas and object keys *)
(* ================================================================== *)

Module Joi.

Inductive rule : Type :=
| min (limit : nat)
| max (limit : nat)
| email.

(** A [Joi.string()...required()] schema: either [valid(...)] with its
    allowed values, or a sequence of rules.  Every key of the service's
    schema is [required()]. *)
Inductive string_schema : Type :=
| valid (allowed : list string)
| rules (rs : list rule).

(** [error.details[0]] *)
Record item : Type := mkItem { path : string; msg : string }.

Definition report (label reason : string) : item :=
  mkItem label (dquote +:+ label +:+ dquote +:+ reason).

Fixpoint join (xs : list string) : string :=
  match xs with
  | [] => EmptyString
  | [x] => x
  | x :: xs' => x +:+ ", " +:+ join xs'
  end.

Definition check (is_email : string -> bool) (label : string) (r : rule) (s : string)
  : option item :=
  match r with
  | min limit =>
      if (limit <=? String.length s)%nat then None
      else Some (report label (" length must be at least " +:+ pretty limit
                               +:+ " characters long"))
  | max limit =>
      if (String.length s <=? limit)%nat then None
      else Some (report label (" length must be less than or equal to "
                               +:+ pretty limit +:+ " characters long"))
  | email =>
      if is_email s then None
      else Some (report label " must be a valid email")
  end.

Fixpoint check_all (is_email : string -> bool) (label : string) (rs : list rule)
    (s : string) : option item :=
  match rs with
  | [] => None
  | r :: rs' =>
      match check is_email label r s with
      | Some e => Some e
      | None => check_all is_email label rs' s
      end
  end.

Definition is_empty (s : string) : bool :=
  match s with EmptyString => true | _ => false end.

(** Validation of one value, stopping at the first error (abortEarly). *)
Definition validate_string (is_email : string -> bool) (label : string)
    (sch : string_schema) (v : option jsval) : item + string :=
  match v with
  | None => inl (report label " is required")
  | Some x =>
      match sch with
      | valid allowed =>
          match x with
          | JStr s =>
              if existsb (String.eqb s) allowed then inr s
              else inl (report label (" must be one of [" +:+ join allowed +:+ "]"))
          | _ => inl (report label (" must be one of [" +:+ join allowed +:+ "]"))
          end
      | rules rs =>
          match x with
          | JStr s =>
              if is_empty s then inl (report label " is not allowed to be empty")
              else match check_all is_email label rs s with
                   | Some e => inl e
                   | None => inr s
                   end
          | _ => inl (report label " must be a string")
          end
      end
  end.

(** One key of [Joi.object({...})], followed by the rest of the keys. *)
Definition key {A} (is_email : string -> bool) (o : jsobj) (label : string)
    (sch : string_schema) (k : string -> item + A) : item + A :=
  match validate_string is_email label sch (prop o label) with
  | inl e => inl e
  | inr s => k s
  end.

(** Keys outside the schema are not allowed (allowUnknown is off). *)
Fixpoint unknown (known : list string) (o : jsobj) : option string :=
  match o with
  | [] => None
  | (k, _) :: o' =>
      if existsb (String.eqb k) known then unknown known o' else Some k
  end.

Definition closed {A} (known : list string) (o : jsobj) (a : A) : item + A :=
  match unknown known o with
  | Some k => inl (report k " is not allowed")
  | None => inr a
  end.

End Joi.

Section Service.

(** The syntax check behind [Joi.string().email()] belongs to the joi
    package; the service is verified for any such check. *)
Variable email_syntax : string -> bool.

(* ================================================================== *)
(** * services/userService.js *)
(* ================================================================== *)

Definition userSchema_keys : list string :=
  ["firstName"; "lastName"; "email"; "gender"; "sex"; "occupation"].

(** [userSchema.validate(userData)]: the error of the first offending key,
    or the validated value. *)
Definition userSchema (o : jsobj) : Joi.item + User :=
  Joi.key email_syntax o "firstName" (Joi.rules [Joi.min 2; Joi.max 100]) (fun firstName =>
  Joi.key email_syntax o "lastName" (Joi.rules [Joi.min 2; Joi.max 100]) (fun lastName =>
  Joi.key email_syntax o "email" (Joi.rules [Joi.email]) (fun email =>
  Joi.key email_syntax o "gender"
    (Joi.valid ["male"; "female"; "non-binary"; "prefer-not-to-say"]) (fun gender =>
  Joi.key email_syntax o "sex" (Joi.valid ["male"; "female"; "intersex"]) (fun sex =>
  Joi.key email_syntax o "occupation" (Joi.rules [Joi.min 2; Joi.max 255]) (fun occupation =>
  Joi.closed userSchema_keys o
    (mkUser firstName lastName email gender sex occupation))))))).

Definition validateUserData (userData : jsobj) : outcome User :=
  match userSchema userData with
  | inl e => Throw (Error ("Validation error: " +:+ Joi.msg e))
  | inr v => Return v
  end.

(** The object [submitUserData] resolves to. *)
Record Submitted : Type := mkSubmitted {
  success : bool;
  submitted_message : string;
  submitted_email : string
}.

Definition submitUserData (userData : jsobj) : M Submitted :=
  try_catch
    (validatedData <~ lift (validateUserData userData);
     redisClient <~ getRedisClient;
     let userKey := "user:pending:" +:+ email validatedData in
     await redis_client.setEx userKey 3600 (DUser validatedData);
     await console_log "User data stored in Redis:" (Some (email validatedData));
     await sendMessage "user-registration" (user_obj validatedData);
     ret (mkSubmitted true "User registration submitted successfully"
            (email validatedData)))
    (fun e => await console_error "Error submitting user data:" (Some (error_message e));
              throw e).

Definition saveUserToDatabase (userData : jsobj) : M (option Row) :=
  try_catch
    (result <~ query (pg.InsertUser
                        (pg.param (prop userData "firstName"))
                        (pg.param (prop userData "lastName"))
                        (pg.param (prop userData "email"))
                        (pg.param (prop userData "gender"))
                        (pg.param (prop userData "sex"))
                        (pg.param (prop userData "occupation")));
     redisClient <~ getRedisClient;
     let userKey := "user:completed:" +:+ template (prop userData "email") in
     savedAt <~ Date_now;
     await redis_client.setEx userKey 86400 (DSaved savedAt (head result));
     await redis_client.del ("user:pending:" +:+ template (prop userData "email"));
     await console_log "User saved to database:" None;
     ret (head result))
    (fun e => await console_error "Error saving user to database:" (Some (error_message e));
              throw e).

Definition getAllUsers (limit offset : option Z) : M (list Row) :=
  try_catch
    (query (pg.SelectPage (default 100 limit) (default 0 offset)))
    (fun e => await console_error "Error fetching users:" (Some (error_message e));
              throw e).

Definition getUserByEmail (email : string) : M (option doc) :=
  try_catch
    (redisClient <~ getRedisClient;
     cachedUser <~ redis_client.get ("user:completed:" +:+ email);
     match cachedUser with
     | Some d =>
         await console_log "User found in cache:" (Some email);
         ret (Some d)
     | None =>
         result <~ query (pg.SelectByEmail email);
         match result with
         | r :: _ =>
             await redis_client.setEx ("user:completed:" +:+ email) 3600 (DRow r);
             ret (Some (DRow r))
         | [] => ret None
         end
     end)
    (fun e => await console_error "Error fetching user by email:" (Some (error_message e));
              throw e).

(* ================================================================== *)
(** * config/kafka.js: consumer side *)
(* ================================================================== *)

Definition JSON_parse (p : payload) : M jsobj :=
  match p with
  | Json o => ret o
  | Malformed raw => throw (Error "Unexpected token in JSON")
  end.

(** The [eachMessage] handler given to [consumer.run]. *)
Definition eachMessage (m : Message) : M unit :=
  try_catch
    (userData <~ JSON_parse (msg_value m);
     await console_log "Processing user registration from Kafka:" None;
     _ <~ saveUserToDatabase userData;
     console_log "User saved to database:" (Some (template (prop userData "email"))))
    (fun e => console_error "Error processing Kafka message:" (Some (error_message e))).

(** One cycle of the loop that [consumer.run({ eachMessage })] starts
    (kafkajs, autoCommit on): fetch the message at the group's offset and
    hand it to the handler; when the handler resolves, the offset moves
    past the message; when it rejects, the offset is left where it was, the
    error reaches the runner and the message is fetched again. *)
Definition run_cycle (handler : Message -> M unit) : M unit :=
  fun w =>
    match kafkajs.log_of "user-registration" (kafka w) !! committed (kafka w) with
    | None => (Return tt, w)
    | Some m =>
        match handler m w with
        | (Return _, w') =>
            (Return tt, with_kafka (with_committed (S (committed (kafka w'))) (kafka w')) w')
        | (Throw e, w') => (Throw e, w')
        end
    end.

Definition startConsumer_cycle : M unit := run_cycle eachMessage.

(** [n] cycles of the loop; a cycle that rejects ends it. *)
Fixpoint startConsumer_cycles (n : nat) : M unit :=
  match n with
  | O => ret tt
  | S n' => await startConsumer_cycle; startConsumer_cycles n'
  end.

(** [consumer.run] registers the handler and starts the loop in the
    background; it resolves at once. *)
Definition startConsumer : M unit := ret tt.

Definition initKafka : M (handle * handle) :=
  try_catch
    (await set_producer Handle;
     await kafkajs.connect;
     await console_log "Kafka producer connected" None;
     await set_consumer Handle;
     await kafkajs.connect;
     await kafkajs.connect;
     await console_log "Kafka consumer connected and subscribed" None;
     await startConsumer;
     ret (Handle, Handle))
    (fun e => await console_error "Failed to initialize Kafka:" (Some (error_message e));
              throw e).

(* ================================================================== *)
(** * routes/userRoutes.js *)
(* ================================================================== *)

Inductive body : Type :=
| Accepted (message email : string)   (* { success: true, message, data: { email } } *)
| Failure (error : string)            (* { success: false, error } *)
| Page (count : nat) (data : list Row)
| Found (data : doc).

Record response : Type := mkResponse { status : Z; json : body }.

(** POST /api/users; [None] is a missing body. *)
Definition post_users (req_body : option jsobj) : M response :=
  try_catch
    (match req_body with
     | None => ret (mkResponse 400 (Failure "Request body is required"))
     | Some userData =>
         result <~ submitUserData userData;
         ret (mkResponse 201 (Accepted (submitted_message result) (submitted_email result)))
     end)
    (fun e =>
       await console_error "Error in POST /api/users:" (Some (error_message e));
       ret (mkResponse 400
              (Failure (if Joi.is_empty (error_message e)
                        then "Failed to submit user data"
                        else error_message e)))).

(** [parseInt(q) || d]; [None] is NaN. *)
Definition parseInt_or (q : option Z) (d : Z) : Z :=
  match q with
  | Some 0 | None => d
  | Some n => n
  end.

(** GET /api/users *)
Definition get_users (limit_q offset_q : option Z) : M response :=
  try_catch
    (let limit := parseInt_or limit_q 100 in
     let offset := parseInt_or offset_q 0 in
     users <~ getAllUsers (Some limit) (Some offset);
     ret (mkResponse 200 (Page (List.length users) users)))
    (fun e =>
       await console_error "Error in GET /api/users:" (Some (error_message e));
       ret (mkResponse 500 (Failure "Failed to fetch users"))).

(** GET /api/users/:email *)
Definition get_user (email : string) : M response :=
  try_catch
    (user <~ getUserByEmail email;
     match user with
     | None => ret (mkResponse 404 (Failure "User not found"))
     | Some d => ret (mkResponse 200 (Found d))
     end)
    (fun e =>
       await console_error "Error in GET /api/users/:email:" (Some (error_message e));
       ret (mkResponse 500 (Failure "Failed to fetch user"))).

(* ================================================================== *)
(** * routes/healthRoutes.js *)
(* ================================================================== *)

Record Services : Type := mkServices {
  redis_status : string;
  postgres_status : string;
  kafka_status : string
}.

Record Health : Type := mkHealth {
  health_message : string;
  health_timestamp : Z;
  services : Services
}.

(** [Object.values(health.services).every(status => status === 'healthy')] *)
Definition allHealthy (s : Services) : bool :=
  forallb (fun status => String.eqb status "healthy")
    [redis_status s; postgres_status s; kafka_status s].

(** GET /api/health: the status code and the JSON body ([uptime] is left
    out).  Each inner block catches its own errors, so that the outer
    handler is never entered. *)
Definition get_health : M (Z * Health) :=
  timestamp <~ Date_now;
  let unknown := mkServices "unknown" "unknown" "unknown" in
  try_catch
    (redis_s <~ try_catch
                  (redisClient <~ getRedisClient;
                   await redis_client.ping;
                   ret "healthy")
                  (fun _ => ret "unhealthy");
     postgres_s <~ try_catch
                  (pool <~ getPool;
                   _ <~ pg.pool_query pg.Select1;
                   ret "healthy")
                  (fun _ => ret "unhealthy");
     kafka_s <~ try_catch
                  (producer <~ getProducer;
                   if truthy producer then ret "healthy" else ret "unknown")
                  (fun _ => ret "unhealthy");
     let health := mkHealth "OK" timestamp (mkServices redis_s postgres_s kafka_s) in
     let statusCode := if allHealthy (services health) then 200 else 503 in
     ret (statusCode, health))
    (fun _ => ret (503, mkHealth "Error checking health" timestamp unknown)).

(* ================================================================== *)
(** * The service at work *)
(* ================================================================== *)

(** What happens to the world: requests arrive, the consumer loop turns,
    other producers write to the topic, time passes, dependencies fail
    and recover. *)
Inductive event : Type :=
| Post (req_body : option jsobj)
| GetUsers (limit_q offset_q : option Z)
| GetUser (email : string)
| GetHealth
| ConsumerCycle
| Foreign (m : Message)
| Elapse (ms : Z)
| RedisFault (f : option string)
| PostgresFault (f : option string)
| BrokerFault (f : option string).

Definition step (ev : event) (w : World) : World :=
  match ev with
  | Post req_body => after (post_users req_body) w
  | GetUsers limit_q offset_q => after (get_users limit_q offset_q) w
  | GetUser email => after (get_user email) w
  | GetHealth => after get_health w
  | ConsumerCycle => after startConsumer_cycle w
  | Foreign m =>
      with_kafka
        (with_topics (<["user-registration" :=
                          kafkajs.log_of "user-registration" (kafka w) ++ [m]]>
                        (topics (kafka w))) (kafka w)) w
  | Elapse ms => with_clock (clock w + Z.max 0 ms) w
  | RedisFault f => with_redis_fault f w
  | PostgresFault f => with_pg_fault f w
  | BrokerFault f => with_broker_fault f w
  end.

Definition run (evs : list event) (w : World) : World :=
  fold_left (fun w ev => step ev w) evs w.

(* ================================================================== *)
(** * Invariants of computations *)
(* ================================================================== *)

(** [m] keeps [P]: whatever it returns or throws, [P] still holds. *)
Definition preserves {A} (P : World -> Prop) (m : M A) : Prop :=
  forall w, P w -> P (after m w).

(** [P] does not look at the console, the Redis keys, the topic logs, the
    group offset. *)
Definition ignores_console (P : World -> Prop) : Prop :=
  forall w c, P w -> P (with_console c w).
Definition ignores_store (P : World -> Prop) : Prop :=
  forall w s, P w -> P (with_redis (with_store s (redis w)) w).
Definition ignores_topics (P : World -> Prop) : Prop :=
  forall w t, P w -> P (with_kafka (with_topics t (kafka w)) w).
Definition ignores_offset (P : World -> Prop) : Prop :=
  forall w n, P w -> P (with_kafka (with_committed n (kafka w)) w).

(** [P] holds whatever happens next. *)
Record stable (P : World -> Prop) : Prop := mkStable {
  stable_console : ignores_console P;
  stable_store : ignores_store P;
  stable_topics : ignores_topics P;
  stable_offset : ignores_offset P;
  stable_statements : forall st, preserves P (pg.client_query st);
  stable_clock : forall w t, P w -> P (with_clock t w);
  stable_redis_fault : forall w f, P w -> P (with_redis_fault f w);
  stable_pg_fault : forall w f, P w -> P (with_pg_fault f w);
  stable_broker_fault : forall w f, P w -> P (with_broker_fault f w)
}.

(* ================================================================== *)
(** * What the dependency checks observe *)
(* ================================================================== *)

(** The Redis check passes: the client exists and answers PING. *)
Definition redis_answers (w : World) : bool :=
  match redisClient (redis w), redis_fault (redis w) with
  | Some _, None => true
  | _, _ => false
  end.

(** The PostgreSQL check passes: the pool exists and answers SELECT 1. *)
Definition postgres_answers (w : World) : bool :=
  match pool (postgres w), pg_fault (postgres w) with
  | Some _, None => true
  | _, _ => false
  end.

(** The Kafka check passes: the producer handle exists. *)
Definition producer_initialized (w : World) : bool :=
  match producer (kafka w) with
  | Some _ => true
  | None => false
  end.

(** The relay takes a message: the producer exists and the broker answers. *)
Definition relay_accepts (w : World) : bool :=
  match producer (kafka w), broker_fault (kafka w) with
  | Some _, None => true
  | _, _ => false
  end.

Definition status_of (passed : bool) : string :=
  if passed then "healthy" else "unhealthy".


(** Newest first. *)
Definition newer_or_same (a b : Row) : Prop := created_at b <= created_at a.

Definition newest_first (rows : list Row) : Prop := Sorted newer_or_same rows.

(* ================================================================== *)
(** * The validation rules as the specification words them *)
(* ================================================================== *)

Inductive field : Type :=
| FirstName | LastName | Email | Gender | Sex | Occupation.

Definition all_fields : list field :=
  [FirstName; LastName; Email; Gender; Sex; Occupation].

Definition label (f : field) : string :=
  match f with
  | FirstName => "firstName"
  | LastName => "lastName"
  | Email => "email"
  | Gender => "gender"
  | Sex => "sex"
  | Occupation => "occupation"
  end.

Definition length_within (lo hi : nat) (s : string) : bool :=
  (lo <=? String.length s)%nat && (String.length s <=? hi)%nat.

Definition one_of (allowed : list string) (s : string) : bool :=
  existsb (String.eqb s) allowed.

(** Given and family name of length 2 to 100, an email of the accepted
    syntax, each categorical attribute in its enumerated set, occupation of
    length 2 to 255. *)
Definition rule_holds (f : field) (s : string) : bool :=
  match f with
  | FirstName | LastName => length_within 2 100 s
  | Email => email_syntax s
  | Gender => one_of ["male"; "female"; "non-binary"; "prefer-not-to-say"] s
  | Sex => one_of ["male"; "female"; "intersex"] s
  | Occupation => length_within 2 255 s
  end.

(** The field is present in the input and satisfies its rule. *)
Definition field_ok (o : jsobj) (f : field) : bool :=
  match prop o (label f) with
  | Some (JStr s) => rule_holds f s
  | _ => false
  end.

Definition all_fields_ok (o : jsobj) : bool := forallb (field_ok o) all_fields.

(** The input has no field besides the six. *)
Definition only_known_fields (o : jsobj) : bool :=
  forallb (fun kv => existsb (String.eqb (fst kv)) userSchema_keys) o.

Definition field_of (u : User) (f : field) : string :=
  match f with
  | FirstName => firstName u
  | LastName => lastName u
  | Email => email u
  | Gender => gender u
  | Sex => sex u
  | Occupation => occupation u
  end.

(** The first field, in schema order, that is missing or breaks its rule. *)
Definition first_offending (o : jsobj) : option field :=
  List.find (fun f => negb (field_ok o f)) all_fields.

(** The schema of each field, as [userSchema] gives it. *)
Definition schema_of (f : field) : Joi.string_schema :=
  match f with
  | FirstName | LastName => Joi.rules [Joi.min 2; Joi.max 100]
  | Email => Joi.rules [Joi.email]
  | Gender => Joi.valid ["male"; "female"; "non-binary"; "prefer-not-to-say"]
  | Sex => Joi.valid ["male"; "female"; "intersex"]
  | Occupation => Joi.rules [Joi.min 2; Joi.max 255]
  end.

(** What the validation of one key decides. *)
Inductive key_verdict (o : jsobj) (f : field) : Joi.item + string -> Prop :=
| key_accepted (s : string) :
    prop o (label f) = Some (JStr s) ->
    field_ok o f = true ->
    key_verdict o f (inr s)
| key_rejected (reason : string) :
    field_ok o f = false ->
    key_verdict o f (inl (Joi.report (label f) reason)).

(** The three ways [userSchema.validate] ends. *)
Inductive schema_verdict (o : jsobj) : Joi.item + User -> Prop :=
| schema_value (u : User) :
    first_offending o = None ->
    Joi.unknown userSchema_keys o = None ->
    (forall f, prop o (label f) = Some (JStr (field_of u f))) ->
    schema_verdict o (inr u)
| schema_field_error (f : field) (reason : string) :
    first_offending o = Some f ->
    schema_verdict o (inl (Joi.report (label f) reason))
| schema_unknown_key (k : string) :
    first_offending o = None ->
    Joi.unknown userSchema_keys o = Some k ->
    schema_verdict o (inl (Joi.report k " is not allowed")).

(* ================================================================== *)
(** * What the service writes *)
(* ================================================================== *)

(** The staging entry of a submission made in world [w]. *)
Definition pending_entry (u : User) (w : World) : Entry :=
  mkEntry (DUser u) (clock w + 1000 * 3600).

(** The message a submission made in world [w] publishes. *)
Definition published (u : User) (w : World) : Message :=
  mkMessage None (Json (user_obj u)) (clock w).

(** The statement [saveUserToDatabase] sends for a parsed message. *)
Definition insert_of (userData : jsobj) : pg.statement :=
  pg.InsertUser (pg.param (prop userData "firstName"))
                (pg.param (prop userData "lastName"))
                (pg.param (prop userData "email"))
                (pg.param (prop userData "gender"))
                (pg.param (prop userData "sex"))
                (pg.param (prop userData "occupation")).

(** The outcome of that statement in world [w]. *)
Definition inserted (userData : jsobj) (w : World) : outcome (list Row) * (list Row * Z) :=
  pg.execute (insert_of userData) (clock w) (users (postgres w))
    (users_id_seq (postgres w)).



(** The relay status that GET /api/health reports. *)
Definition reported_kafka_status (w : World) : string :=
  match result get_health w with
  | Return (_, h) => kafka_status (services h)
  | Throw _ => "unknown"
  end.

(* ================================================================== *)
(** * Sample data *)
(* ================================================================== *)

(** A stand-in syntax check for the examples: a non-empty local part, one
    at sign, a non-empty domain. *)
Fixpoint no_at_sign (s : string) : bool :=
  match s with
  | EmptyString => true
  | String c s' => negb (Ascii.eqb c "@") && no_at_sign s'
  end.

Fixpoint domain_follows (s : string) : bool :=
  match s with
  | EmptyString => false
  | String c s' =>
      if Ascii.eqb c "@" then negb (Joi.is_empty s') && no_at_sign s'
      else domain_follows s'
  end.

Definition at_sign_syntax (s : string) : bool :=
  match s with
  | EmptyString => false
  | String c s' => negb (Ascii.eqb c "@") && domain_follows s'
  end.

(** All three dependencies connected and reachable, nothing stored yet. *)
Definition world0 : World :=
  mkWorld 1000
    (mkRedis (Some Handle) None ∅)
    (mkPostgres (Some Handle) None [] 0)
    (mkKafka (Some Handle) (Some Handle) None ∅ 0)
    [].

Definition ann : jsobj :=
  [ ("firstName", JStr "Ann"); ("lastName", JStr "Lee"); ("email", JStr "ann@x.com");
    ("gender", JStr "female"); ("sex", JStr "female"); ("occupation", JStr "Engineer") ].

Definition ann_user : User := mkUser "Ann" "Lee" "ann@x.com" "female" "female" "Engineer".

Definition row_at (i t : Z) (e : string) : Row :=
  mkRow i "Ann" "Lee" e "female" "female" "Engineer" t t.

Definition ann_message : Message := mkMessage None (Json ann) 1000.

(** Ann's submission has been staged and published, not yet consumed. *)
Definition world_queued : World :=
  mkWorld 1000
    (mkRedis (Some Handle) None
       {[ "user:pending:ann@x.com" := mkEntry (DUser ann_user) 3601000 ]})
    (mkPostgres (Some Handle) None [] 0)
    (mkKafka (Some Handle) (Some Handle) None
       {[ "user-registration" := [ann_message] ]} 0)
    [].

(** The same, with PostgreSQL unreachable. *)
Definition world_queued_pg_down : World :=
  with_pg_fault (Some "connect ECONNREFUSED 127.0.0.1:5432") world_queued.

Definition world_redis_down : World :=
  with_redis_fault (Some "connect ECONNREFUSED 127.0.0.1:6379") world0.

Definition world_broker_down : World :=
  with_broker_fault (Some "Connection timeout") world0.

(** Three persisted rows, created at 1000, 3000 and 2000. *)
Definition world_three_rows : World :=
  mkWorld 5000
    (mkRedis (Some Handle) None ∅)
    (mkPostgres (Some Handle) None
       [row_at 1 1000 "ann@x.com"; row_at 2 3000 "bob@x.com"; row_at 3 2000 "cy@x.com"] 3)
    (mkKafka (Some Handle) (Some Handle) None ∅ 0)
    [].

(** Ann with a seventh field. *)
Definition ann_with_nickname : jsobj := ann ++ [("nickname", JStr "Annie")].

(* ================================================================== *)
(** * routes/healthRoutes.js: readiness *)
(* ================================================================== *)

Record Readiness : Type := mkReadiness {
  readiness_status : string;
  readiness_error : option string
}.

(** GET /api/health/ready: the status code and the JSON body. *)
Definition get_ready : M (Z * Readiness) :=
  try_catch
    (redisClient <~ getRedisClient;
     pool <~ getPool;
     producer <~ getProducer;
     await redis_client.ping;
     _ <~ pg.pool_query pg.Select1;
     if truthy producer
     then ret (200, mkReadiness "ready" None)
     else ret (503, mkReadiness "not ready" None))
    (fun e => ret (503, mkReadiness "not ready" (Some (error_message e)))).

(* ================================================================== *)
(** * More to say about the service *)
(* ================================================================== *)




(** The keys of the service: [user:pending:...] and [user:completed:...]. *)
Definition service_key (k : string) : bool :=
  String.prefix "user:pending:" k || String.prefix "user:completed:" k.

(** A Redis command that leaves every other key as it is. *)
Definition service_keys_only {A}
    (f : Z -> gmap string Entry -> A * gmap string Entry) : Prop :=
  forall now s k, service_key k = false -> snd (f now s) !! k = s !! k.

(** [P] survives every effect the service has on the world and everything
    the environment does: console lines, commands on the service's own
    Redis keys, statements, messages appended to a topic, the commit of
    the message at the group's offset, time moving forward, faults. *)
Record invariant (P : World -> Prop) : Prop := mkInvariant {
  inv_console : ignores_console P;
  inv_redis : forall A (f : Z -> gmap string Entry -> A * gmap string Entry),
      service_keys_only f -> preserves P (redis_client.command f);
  inv_statements : forall st, preserves P (pg.client_query st);
  inv_send : forall topic messages, preserves P (kafkajs.send topic messages);
  inv_commit : forall w m,
      kafkajs.log_of "user-registration" (kafka w) !! committed (kafka w) = Some m ->
      P w -> P (with_kafka (with_committed (S (committed (kafka w))) (kafka w)) w);
  inv_clock : forall w ms, P w -> P (with_clock (clock w + Z.max 0 ms) w);
  inv_redis_fault : forall w f, P w -> P (with_redis_fault f w);
  inv_pg_fault : forall w f, P w -> P (with_pg_fault f w);
  inv_broker_fault : forall w f, P w -> P (with_broker_fault f w)
}.

(** The rows a table keeps of another: same id, email and creation time. *)
Definition kept_in (rows : list Row) (r : Row) : Prop :=
  exists r', In r' rows /\ id r' = id r /\ row_email r' = row_email r /\
             created_at r' = created_at r.

(** A message that is not JSON, waiting on the topic; a key of another
    application in Redis. *)
Definition poison_message : Message := mkMessage None (Malformed "{oops") 1000.

Definition world_poisoned : World :=
  mkWorld 1000
    (mkRedis (Some Handle) None
       {[ "session:42" := mkEntry (DUser ann_user) 9000 ]})
    (mkPostgres (Some Handle) None [row_at 1 500 "bob@x.com"] 1)
    (mkKafka (Some Handle) (Some Handle) None
       {[ "user-registration" := [poison_message] ]} 0)
    [].


(** Ann's row is in the table; nothing is cached. *)
Definition world_persisted : World :=
  mkWorld 5000
    (mkRedis (Some Handle) None ∅)
    (mkPostgres (Some Handle) None [row_at 1 1000 "ann@x.com"] 1)
    (mkKafka (Some Handle) (Some Handle) None ∅ 0)
    [].

(** A message the consumer cannot persist in world [w]: it is not JSON,
    or PostgreSQL does not answer, or the statement for it fails. *)
Definition unprocessable (m : Message) (w : World) : Prop :=
  match msg_value m with
  | Malformed _ => True
  | Json o => postgres_answers w = false \/ exists e, fst (inserted o w) = Throw e
  end.

(** The relay of [w'] continues that of [w]: every topic log of [w] is a
    prefix of the log in [w'], and the group offset has not gone back, nor
    past the end of the log if it was not past it. *)
Definition relay_continues (w w' : World) : Prop :=
  (forall t, kafkajs.log_of t (kafka w) `prefix_of` kafkajs.log_of t (kafka w')) /\
  (committed (kafka w) <= committed (kafka w'))%nat /\
  ((committed (kafka w)
    <= List.length (kafkajs.log_of "user-registration" (kafka w)))%nat ->
   (committed (kafka w')
    <= List.length (kafkajs.log_of "user-registration" (kafka w')))%nat).

(* ================================================================== *)
(** * Properties: the validator *)
(* ================================================================== *)

Section Validator.

Hypothesis email_syntax_nonempty : email_syntax EmptyString = false.

Lemma is_empty_true (s : string) : Joi.is_empty s = true -> s = EmptyString.
Proof. destruct s; [reflexivity | discriminate]. Qed.

Lemma length_within_empty (lo hi : nat) :
  (0 < lo)%nat -> length_within lo hi EmptyString = false.
Proof.
  intros Hlo. unfold length_within. simpl.
  destruct (Nat.leb_spec lo 0); [lia | reflexivity].
Qed.

Lemma validate_bounds (o : jsobj) (f : field) (lo hi : nat) :
  (0 < lo)%nat ->
  schema_of f = Joi.rules [Joi.min lo; Joi.max hi] ->
  rule_holds f = length_within lo hi ->
  key_verdict o f
    (Joi.validate_string email_syntax (label f) (schema_of f) (prop o (label f))).
Proof.
  intros Hlo Hsch Hrule. rewrite Hsch.
  assert (Hok : forall s, prop o (label f) = Some (JStr s) ->
                          field_ok o f = length_within lo hi s).
  { intros s Hs. unfold field_ok. now rewrite Hs, Hrule. }
  assert (Hbad : forall v, prop o (label f) = v ->
                           (forall s, v <> Some (JStr s)) -> field_ok o f = false).
  { intros v Hv Hns. unfold field_ok. rewrite Hv.
    destruct v as [[ | | |s]|]; try reflexivity. now destruct (Hns s). }
  destruct (prop o (label f)) as [[ | b | n | s]|] eqn:Hp;
    cbn [Joi.validate_string];
    try (apply key_rejected; eapply Hbad; [reflexivity | congruence]).
  specialize (Hok _ eq_refl). unfold length_within in Hok.
  destruct (Joi.is_empty s) eqn:He.
  - apply key_rejected. apply is_empty_true in He. subst s.
    rewrite Hok. now apply length_within_empty.
  - cbn [Joi.check_all Joi.check].
    destruct (lo <=? String.length s)%nat; simpl in Hok.
    + destruct (String.length s <=? hi)%nat.
      * now apply key_accepted.
      * now apply key_rejected.
    + now apply key_rejected.
Qed.

Lemma validate_choice (o : jsobj) (f : field) (allowed : list string) :
  schema_of f = Joi.valid allowed ->
  rule_holds f = one_of allowed ->
  key_verdict o f
    (Joi.validate_string email_syntax (label f) (schema_of f) (prop o (label f))).
Proof.
  intros Hsch Hrule. rewrite Hsch.
  destruct (prop o (label f)) as [[ | b | n | s]|] eqn:Hp;
    cbn [Joi.validate_string];
    try (apply key_rejected; unfold field_ok; now rewrite Hp).
  assert (Hok : field_ok o f = one_of allowed s).
  { unfold field_ok. now rewrite Hp, Hrule. }
  unfold one_of in Hok.
  destruct (existsb (String.eqb s) allowed).
  - now apply key_accepted.
  - now apply key_rejected.
Qed.

Lemma validate_email (o : jsobj) :
  key_verdict o Email
    (Joi.validate_string email_syntax (label Email) (schema_of Email)
       (prop o (label Email))).
Proof.
  unfold schema_of.
  destruct (prop o (label Email)) as [[ | b | n | s]|] eqn:Hp;
    cbn [Joi.validate_string];
    try (apply key_rejected; unfold field_ok; now rewrite Hp).
  assert (Hok : field_ok o Email = email_syntax s).
  { unfold field_ok. now rewrite Hp. }
  destruct (Joi.is_empty s) eqn:He.
  - apply key_rejected. apply is_empty_true in He. subst s. now rewrite Hok.
  - cbn [Joi.check_all Joi.check].
    destruct (email_syntax s).
    + now apply key_accepted.
    + now apply key_rejected.
Qed.

(** Every key of the schema is decided by its rule. *)
Lemma validate_field (o : jsobj) (f : field) :
  key_verdict o f
    (Joi.validate_string email_syntax (label f) (schema_of f) (prop o (label f))).
Proof.
  destruct f.
  - apply (validate_bounds o FirstName 2 100); [lia | reflexivity | reflexivity].
  - apply (validate_bounds o LastName 2 100); [lia | reflexivity | reflexivity].
  - apply validate_email.
  - now apply (validate_choice o Gender ["male"; "female"; "non-binary"; "prefer-not-to-say"]).
  - now apply (validate_choice o Sex ["male"; "female"; "intersex"]).
  - apply (validate_bounds o Occupation 2 255); [lia | reflexivity | reflexivity].
Qed.

Lemma unknown_none_iff (known : list string) (o : jsobj) :
  Joi.unknown known o = None <->
  forallb (fun kv => existsb (String.eqb (fst kv)) known) o = true.
Proof.
  induction o as [|[k v] o IH]; cbn [Joi.unknown forallb fst].
  - tauto.
  - destruct (existsb (String.eqb k) known); cbn [andb].
    + exact IH.
    + split; discriminate.
Qed.

Lemma unknown_none (o : jsobj) :
  Joi.unknown userSchema_keys o = None <-> only_known_fields o = true.
Proof. apply unknown_none_iff. Qed.

Lemma first_offending_none (o : jsobj) :
  first_offending o = None <-> all_fields_ok o = true.
Proof.
  unfold first_offending, all_fields_ok, all_fields. cbn [List.find forallb].
  destruct (field_ok o FirstName), (field_ok o LastName), (field_ok o Email),
    (field_ok o Gender), (field_ok o Sex), (field_ok o Occupation);
    cbn; split; congruence.
Qed.

Ltac decide_key o f :=
  let H := fresh "H" in
  pose proof (validate_field o f) as H; cbn [label schema_of] in H;
  match type of H with
  | key_verdict _ _ ?t => destruct t eqn:?; inversion H; subst; clear H
  end.

Ltac first_is o :=
  unfold first_offending, all_fields; cbn [List.find];
  repeat match goal with
         | H : field_ok o _ = _ |- _ => rewrite H; clear H
         end;
  reflexivity.

Lemma userSchema_verdict (o : jsobj) : schema_verdict o (userSchema o).
Proof.
  unfold userSchema, Joi.key.
  decide_key o FirstName; [apply (schema_field_error o FirstName); first_is o|].
  decide_key o LastName; [apply (schema_field_error o LastName); first_is o|].
  decide_key o Email; [apply (schema_field_error o Email); first_is o|].
  decide_key o Gender; [apply (schema_field_error o Gender); first_is o|].
  decide_key o Sex; [apply (schema_field_error o Sex); first_is o|].
  decide_key o Occupation; [apply (schema_field_error o Occupation); first_is o|].
  unfold Joi.closed.
  destruct (Joi.unknown userSchema_keys o) as [k|] eqn:Hk.
  - apply schema_unknown_key; [first_is o | exact Hk].
  - apply schema_value; [first_is o | exact Hk |].
    intros []; assumption.
Qed.

Lemma submit_invalid (o : jsobj) (e : error) (w : World) :
  validateUserData o = Throw e ->
  submitUserData o w =
    (Throw e,
     with_console (mkLog Stderr "Error submitting user data:" (Some (error_message e))
                   :: console w) w).
Proof.
  intros Hv. unfold submitUserData, try_catch, bind, lift. now rewrite Hv.
Qed.

Lemma first_offending_some (o : jsobj) (f : field) :
  first_offending o = Some f -> field_ok o f = false.
Proof.
  intros H. apply find_some in H as [_ H]. now apply negb_true_iff in H.
Qed.

(** C8 (amended).  An input whose six fields are all present and satisfy
    their rules, and which has no other field, is returned as the record of
    its six strings.  An input with a missing or invalid field is rejected
    with the message [Validation error: "<field>" <reason>] that names the
    first such field in schema order, and the submission leaves Redis,
    PostgreSQL and Kafka as they were.  An input whose six fields are fine
    but which carries another field is rejected naming that field. *)
Theorem validateUserData_contract (o : jsobj) (w : World) :
  (all_fields_ok o = true -> only_known_fields o = true ->
   exists u, validateUserData o = Return u /\
             forall f, prop o (label f) = Some (JStr (field_of u f)))
  /\
  (all_fields_ok o = false ->
   exists f reason,
     first_offending o = Some f /\ field_ok o f = false /\
     validateUserData o =
       Throw (Error ("Validation error: " +:+ dquote +:+ label f +:+ dquote +:+ reason)) /\
     redis (after (submitUserData o) w) = redis w /\
     postgres (after (submitUserData o) w) = postgres w /\
     kafka (after (submitUserData o) w) = kafka w)
  /\
  (all_fields_ok o = true -> only_known_fields o = false ->
   exists k,
     Joi.unknown userSchema_keys o = Some k /\
     validateUserData o =
       Throw (Error ("Validation error: " +:+ dquote +:+ k +:+ dquote +:+ " is not allowed"))).
Proof.
  pose proof (userSchema_verdict o) as Hv.
  pose proof (first_offending_none o) as Hnone.
  pose proof (unknown_none o) as Hknown.
  unfold validateUserData, after.
  repeat split.
  - intros Hall Hk. apply Hnone in Hall. inversion Hv as [u Hf Hu Hp Heq | f r Hf Heq | k Hf Hu Heq].
    + exists u. now split.
    + congruence.
    + apply Hknown in Hk. congruence.
  - intros Hall.
    inversion Hv as [u Hf Hu Hp Heq | f r Hf Heq | k Hf Hu Heq];
      try (apply Hnone in Hf; congruence).
    exists f, r. split; [exact Hf|]. split; [now apply first_offending_some|].
    split; [reflexivity|].
    rewrite (submit_invalid o (Error ("Validation error: " +:+ Joi.msg (Joi.report (label f) r))) w).
    + now repeat split.
    + unfold validateUserData. now rewrite <- Heq.
  - intros Hall Hk. apply Hnone in Hall.
    inversion Hv as [u Hf Hu Hp Heq | f r Hf Heq | k Hf Hu Heq].
    + apply Hknown in Hu. congruence.
    + congruence.
    + exists k. now split.
Qed.

End Validator.

(* ================================================================== *)
(** * What a computation leaves alone *)
(* ================================================================== *)

Section Frames.

Context {P : World -> Prop}.

Lemma preserves_ret {A} (a : A) : preserves P (ret a).
Proof. intros w H. exact H. Qed.

Lemma preserves_throw {A} (e : error) : preserves P (@throw A e).
Proof. intros w H. exact H. Qed.

Lemma preserves_lift {A} (r : outcome A) : preserves P (lift r).
Proof. intros w H. exact H. Qed.

Lemma preserves_bind {A B} (m : M A) (k : A -> M B) :
  preserves P m -> (forall a, preserves P (k a)) -> preserves P (bind m k).
Proof.
  intros Hm Hk w H. specialize (Hm w H). unfold after, bind in *.
  destruct (m w) as [[a|e] w']; cbn in *; [now apply Hk | exact Hm].
Qed.

Lemma preserves_try_catch {A} (m : M A) (h : error -> M A) :
  preserves P m -> (forall e, preserves P (h e)) -> preserves P (try_catch m h).
Proof.
  intros Hm Hh w H. specialize (Hm w H). unfold after, try_catch in *.
  destruct (m w) as [[a|e] w']; cbn in *; [exact Hm | now apply Hh].
Qed.

Lemma preserves_try_finally {A} (m : M A) (f : M unit) :
  preserves P m -> preserves P f -> preserves P (try_finally m f).
Proof.
  intros Hm Hf w H. specialize (Hm w H). unfold after, try_finally in *.
  destruct (m w) as [r w']; cbn in *. specialize (Hf w' Hm). unfold after in Hf.
  destruct (f w') as [[[]|e] w'']; exact Hf.
Qed.

Lemma preserves_Date_now : preserves P Date_now.
Proof. intros w H. exact H. Qed.

Lemma preserves_getRedisClient : preserves P getRedisClient.
Proof. intros w H. unfold after, getRedisClient. now destruct (redisClient (redis w)). Qed.

Lemma preserves_getPool : preserves P getPool.
Proof. intros w H. unfold after, getPool. now destruct (pool (postgres w)). Qed.

Lemma preserves_getProducer : preserves P getProducer.
Proof. intros w H. unfold after, getProducer. now destruct (producer (kafka w)). Qed.

Lemma preserves_JSON_parse (p : payload) : preserves P (JSON_parse p).
Proof. intros w H. now destruct p. Qed.

Lemma preserves_kafkajs_connect : preserves P kafkajs.connect.
Proof. intros w H. unfold after, kafkajs.connect. now destruct (broker_fault (kafka w)). Qed.

Lemma preserves_pg_connect : preserves P pg.connect.
Proof. intros w H. unfold after, pg.connect. now destruct (pg_fault (postgres w)). Qed.

Hypothesis console_ignored : ignores_console P.

Lemma preserves_console_log (text : string) (arg : option string) :
  preserves P (console_log text arg).
Proof. intros w H. now apply console_ignored. Qed.

Lemma preserves_console_error (text : string) (arg : option string) :
  preserves P (console_error text arg).
Proof. intros w H. now apply console_ignored. Qed.

Hypothesis store_ignored : ignores_store P.

Lemma preserves_redis_command {A} (f : Z -> gmap string Entry -> A * gmap string Entry) :
  preserves P (redis_client.command f).
Proof.
  intros w H. unfold after, redis_client.command.
  destruct (redis_fault (redis w)); [exact H|].
  destruct (f (clock w) (store (redis w))) as [a s]. now apply store_ignored.
Qed.

Hypothesis statements_safe : forall st, preserves P (pg.client_query st).

Lemma preserves_query (st : pg.statement) : preserves P (query st).
Proof.
  unfold query. apply preserves_bind.
  - intros w H. unfold after. destruct (pool (postgres w)); [|exact H].
    now apply preserves_pg_connect.
  - intros _. apply preserves_try_finally; [|apply preserves_ret].
    apply preserves_try_catch; [apply statements_safe|].
    intros e. apply preserves_bind; [apply preserves_console_error|].
    intros _. apply preserves_throw.
Qed.

Lemma preserves_pool_query (st : pg.statement) : preserves P (pg.pool_query st).
Proof.
  unfold pg.pool_query. apply preserves_bind; [apply preserves_pg_connect|].
  intros _. apply statements_safe.
Qed.

Ltac frame_with extra :=
  repeat first
    [ extra
    | apply preserves_query | apply preserves_pool_query
    | apply preserves_redis_command
    | apply preserves_console_log | apply preserves_console_error
    | apply preserves_Date_now | apply preserves_getRedisClient
    | apply preserves_getPool | apply preserves_getProducer
    | apply preserves_JSON_parse | apply preserves_kafkajs_connect
    | apply preserves_ret | apply preserves_throw | apply preserves_lift
    | apply preserves_try_catch | apply preserves_try_finally | apply preserves_bind
    | match goal with
      | |- forall _, _ => intro
      | |- preserves _ (match ?x with _ => _ end) => destruct x
      | |- preserves _ (if ?x then _ else _) => destruct x
      end ].

Ltac frame := frame_with fail.

Lemma preserves_saveUserToDatabase (userData : jsobj) :
  preserves P (saveUserToDatabase userData).
Proof. unfold saveUserToDatabase, redis_client.setEx, redis_client.del. frame. Qed.

Lemma preserves_getAllUsers (limit offset : option Z) :
  preserves P (getAllUsers limit offset).
Proof. unfold getAllUsers. frame. Qed.


Lemma preserves_eachMessage (m : Message) : preserves P (eachMessage m).
Proof.
  unfold eachMessage. frame.
Qed.

Lemma preserves_get_users (limit_q offset_q : option Z) :
  preserves P (get_users limit_q offset_q).
Proof. unfold get_users. frame. Qed.

Lemma preserves_get_user (email : string) : preserves P (get_user email).
Proof. unfold get_user. frame. Qed.

Lemma preserves_get_health : preserves P get_health.
Proof. unfold get_health, redis_client.ping. frame. Qed.

Hypothesis offset_ignored : ignores_offset P.

Lemma preserves_startConsumer_cycle : preserves P startConsumer_cycle.
Proof.
  intros w H. unfold after, startConsumer_cycle, run_cycle.
  destruct (kafkajs.log_of "user-registration" (kafka w) !! committed (kafka w))
    as [m|]; [|exact H].
  pose proof (preserves_eachMessage m w H) as Hm. unfold after in Hm.
  destruct (eachMessage m w) as [[[]|e] w']; cbn in *; [|exact Hm].
  now apply offset_ignored.
Qed.

Hypothesis topics_ignored : ignores_topics P.

Lemma preserves_kafkajs_send (topic : string) (messages : list Message) :
  preserves P (kafkajs.send topic messages).
Proof.
  intros w H. unfold after, kafkajs.send.
  destruct (broker_fault (kafka w)); [exact H|]. now apply topics_ignored.
Qed.

Lemma preserves_sendMessage (topic : string) (message : jsobj) :
  preserves P (sendMessage topic message).
Proof.
  intros w H. unfold after, sendMessage.
  destruct (producer (kafka w)); [|exact H].
  revert w H.
  change (preserves P
            (try_catch
               (now <~ Date_now;
                await kafkajs.send topic [mkMessage None (Json message) now];
                console_log ("Message sent to Kafka topic: " +:+ topic) None)
               (fun e => await console_error "Error sending message to Kafka:"
                                 (Some (error_message e));
                         throw e))).
  frame. apply preserves_kafkajs_send.
Qed.

Lemma preserves_submitUserData (userData : jsobj) :
  preserves P (submitUserData userData).
Proof.
  unfold submitUserData, redis_client.setEx.
  frame_with ltac:(apply preserves_sendMessage).
Qed.

Lemma preserves_post_users (req_body : option jsobj) :
  preserves P (post_users req_body).
Proof. unfold post_users. frame_with ltac:(apply preserves_submitUserData). Qed.

End Frames.

Lemma step_keeps (P : World -> Prop) (ev : event) (w : World) :
  stable P -> P w -> P (step ev w).
Proof.
  intros [Hc Hs Ht Ho Hq Hclock Hrf Hpf Hbf] H. destruct ev; cbn [step].
  - now apply preserves_post_users.
  - now apply preserves_get_users.
  - now apply preserves_get_user.
  - now apply preserves_get_health.
  - now apply preserves_startConsumer_cycle.
  - now apply Ht.
  - now apply Hclock.
  - now apply Hrf.
  - now apply Hpf.
  - now apply Hbf.
Qed.

(** A stable property of the world holds after every run. *)
Lemma run_keeps (P : World -> Prop) (evs : list event) (w : World) :
  stable P -> P w -> P (run evs w).
Proof.
  intros Hs. unfold run. revert w.
  induction evs as [|ev evs IH]; intros w H; cbn [fold_left].
  - exact H.
  - apply IH. now apply step_keeps.
Qed.

(* ================================================================== *)
(** * Properties: the submission path *)
(* ================================================================== *)

Ltac run_async :=
  unfold result, after, try_catch, try_finally, bind, lift, ret, throw,
    getRedisClient, getPool, getProducer, Date_now, console_log, console_error,
    redis_client.setEx, redis_client.get, redis_client.del, redis_client.ping,
    redis_client.command, kafkajs.send, kafkajs.connect,
    pg.pool_query, pg.connect, pg.release in *.

Lemma sendMessage_accepted (topic : string) (message : jsobj) (w : World) :
  relay_accepts w = true ->
  result (sendMessage topic message) w = Return tt /\
  redis (after (sendMessage topic message) w) = redis w /\
  postgres (after (sendMessage topic message) w) = postgres w /\
  topics (kafka (after (sendMessage topic message) w)) =
    <[topic := kafkajs.log_of topic (kafka w)
               ++ [mkMessage None (Json message) (clock w)]]> (topics (kafka w)).
Proof.
  unfold relay_accepts, sendMessage. run_async.
  destruct (producer (kafka w)); [|discriminate].
  cbn. destruct (broker_fault (kafka w)); [discriminate|]. intros _.
  cbn. now repeat split.
Qed.

Lemma sendMessage_refused (topic : string) (message : jsobj) (w : World) :
  relay_accepts w = false ->
  (exists e, result (sendMessage topic message) w = Throw e) /\
  redis (after (sendMessage topic message) w) = redis w /\
  postgres (after (sendMessage topic message) w) = postgres w /\
  kafka (after (sendMessage topic message) w) = kafka w.
Proof.
  unfold relay_accepts, sendMessage. run_async.
  destruct (producer (kafka w)); cbn.
  - destruct (broker_fault (kafka w)) eqn:Hf; [|discriminate]. intros _.
    cbn. repeat split; eauto.
  - intros _. repeat split; eauto.
Qed.

Lemma run_pair {A} (m : M A) (w : World) : m w = (result m w, after m w).
Proof. unfold result, after. now destruct (m w). Qed.

(** A valid submission when Redis does not answer: nothing is staged,
    nothing is published, the error is rethrown. *)
Lemma submit_not_staged (o : jsobj) (u : User) (w : World) :
  validateUserData o = Return u ->
  redis_answers w = false ->
  (exists e, result (submitUserData o) w = Throw e /\
             (redisClient (redis w) <> None ->
              redis_fault (redis w) = Some (error_message e))) /\
  redis (after (submitUserData o) w) = redis w /\
  postgres (after (submitUserData o) w) = postgres w /\
  kafka (after (submitUserData o) w) = kafka w.
Proof.
  intros Hv. unfold redis_answers, submitUserData. run_async. rewrite Hv.
  destruct (redisClient (redis w)); cbn.
  - destruct (redis_fault (redis w)); [|discriminate]. intros _.
    cbn. repeat split; eauto.
  - intros _. repeat split. eexists. split; [reflexivity|]. congruence.
Qed.

(** A valid submission when Redis answers: the record is staged first,
    and then published or not as the relay decides. *)
Lemma submit_staged (o : jsobj) (u : User) (w : World) :
  validateUserData o = Return u ->
  redis_answers w = true ->
  store (redis (after (submitUserData o) w)) =
    <["user:pending:" +:+ email u := pending_entry u w]> (store (redis w)) /\
  postgres (after (submitUserData o) w) = postgres w /\
  (if relay_accepts w
   then result (submitUserData o) w =
          Return (mkSubmitted true "User registration submitted successfully" (email u)) /\
        topics (kafka (after (submitUserData o) w)) =
          <["user-registration" :=
              kafkajs.log_of "user-registration" (kafka w) ++ [published u w]]>
            (topics (kafka w))
   else (exists e, result (submitUserData o) w = Throw e) /\
        kafka (after (submitUserData o) w) = kafka w).
Proof.
  intros Hv Hredis. unfold redis_answers in Hredis.
  destruct (redisClient (redis w)) eqn:Hc; [|discriminate].
  destruct (redis_fault (redis w)) eqn:Hf; [discriminate|]. clear Hredis.
  unfold submitUserData. run_async. rewrite Hv, Hc, Hf. cbn.
  match goal with
  | |- context [sendMessage ?t ?m ?W] =>
      pose proof (sendMessage_accepted t m W) as Hyes;
      pose proof (sendMessage_refused t m W) as Hno;
      rewrite (run_pair (sendMessage t m) W)
  end.
  change (relay_accepts _) with (relay_accepts w) in Hyes, Hno.
  unfold pending_entry, published.
  destruct (relay_accepts w).
  - destruct (Hyes eq_refl) as (Hr & Hredis & Hpg & Htopics).
    rewrite Hr. cbn. rewrite Hredis, Hpg, Htopics. now repeat split.
  - destruct (Hno eq_refl) as ([e Hr] & Hredis & Hpg & Hkafka).
    rewrite Hr. cbn. rewrite Hredis, Hpg, Hkafka. repeat split; eauto.
Qed.

Lemma log_of_insert (t t' : string) (l : list Message) (k : Kafka) :
  kafkajs.log_of t' (with_topics (<[t := l]> (topics k)) k) =
  if decide (t = t') then l else kafkajs.log_of t' k.
Proof.
  unfold kafkajs.log_of. cbn. rewrite lookup_insert. now destruct (decide (t = t')).
Qed.

Lemma log_of_topics (t : string) (k k' : Kafka) :
  topics k = topics k' -> kafkajs.log_of t k = kafkajs.log_of t k'.
Proof. unfold kafkajs.log_of. now intros ->. Qed.

Lemma live_insert (t : Z) (s : gmap string Entry) (key : string) (e : Entry) :
  redis_client.live t (<[key := e]> s) key =
  if t <? expires_at e then Some (value e) else None.
Proof. unfold redis_client.live. now rewrite lookup_insert_eq. Qed.

(** C3 (amended).  For a submission that passes validation: when Redis
    answers, the record is stored under the key [user:pending:<email>]
    with an expiry 3600 seconds ahead, and it is there whether or not the
    publish that follows succeeds; when Redis does not answer, the
    submission throws the error of the Redis client and the relay is left
    untouched.  So the relay log
    changes only after the record has been staged. *)
Theorem submit_stages_before_publish (o : jsobj) (u : User) (w : World) :
  validateUserData o = Return u ->
  let w' := after (submitUserData o) w in
  let key := "user:pending:" +:+ email u in
  (redis_answers w = true ->
   store (redis w') !! key = Some (mkEntry (DUser u) (clock w + 1000 * 3600)) /\
   forall t, redis_client.live t (store (redis w')) key =
             if t <? clock w + 3600000 then Some (DUser u) else None)
  /\
  (redis_answers w = false ->
   (exists e, result (submitUserData o) w = Throw e /\
              (redisClient (redis w) <> None ->
               redis_fault (redis w) = Some (error_message e))) /\
   kafka w' = kafka w /\ redis w' = redis w)
  /\
  (topics (kafka w') <> topics (kafka w) ->
   store (redis w') !! key = Some (mkEntry (DUser u) (clock w + 1000 * 3600))).
Proof.
  intros Hv w' key.
  assert (Hstaged : redis_answers w = true ->
            store (redis w') = <[key := pending_entry u w]> (store (redis w))).
  { intros Hr. now destruct (submit_staged o u w Hv Hr) as (Hs & _). }
  split; [|split].
  - intros Hr. rewrite (Hstaged Hr). split.
    + apply lookup_insert_eq.
    + intros t. rewrite live_insert. unfold pending_entry. cbn.
      now replace (clock w + 1000 * 3600) with (clock w + 3600000) by lia.
  - intros Hr.
    destruct (submit_not_staged o u w Hv Hr) as ([e [He Hm]] & Hredis & _ & Hk).
    split; [exists e; now split | now split].
  - intros Hchanged. destruct (redis_answers w) eqn:Hr.
    + rewrite (Hstaged eq_refl). apply lookup_insert_eq.
    + destruct (submit_not_staged o u w Hv Hr) as (_ & _ & _ & Hk).
      subst w'. now rewrite Hk in Hchanged.
Qed.

(** C7 (amended).  A message that [sendMessage] publishes is the JSON of the
    record and the producer's timestamp, with no key; and whatever a
    submission adds to a topic is that one unkeyed message on
    [user-registration]. *)
Theorem published_messages_have_no_key (o : jsobj) (topic : string) (message : jsobj)
    (w : World) :
  (result (sendMessage topic message) w = Return tt ->
   kafkajs.log_of topic (kafka (after (sendMessage topic message) w)) =
     kafkajs.log_of topic (kafka w) ++ [mkMessage None (Json message) (clock w)])
  /\
  (kafkajs.log_of topic (kafka (after (submitUserData o) w)) = kafkajs.log_of topic (kafka w)
   \/ exists u,
        validateUserData o = Return u /\ topic = "user-registration" /\
        kafkajs.log_of topic (kafka (after (submitUserData o) w)) =
          kafkajs.log_of topic (kafka w)
          ++ [mkMessage None (Json (user_obj u)) (clock w)]).
Proof.
  split.
  - intros Hr. destruct (relay_accepts w) eqn:Ha.
    + destruct (sendMessage_accepted topic message w Ha) as (_ & _ & _ & Ht).
      unfold kafkajs.log_of at 1. rewrite Ht, lookup_insert_eq. reflexivity.
    + destruct (sendMessage_refused topic message w Ha) as ([e He] & _). congruence.
  - destruct (validateUserData o) as [u|e] eqn:Hv.
    + destruct (redis_answers w) eqn:Hr.
      * destruct (submit_staged o u w Hv Hr) as (_ & _ & Hrelay).
        destruct (relay_accepts w).
        -- destruct Hrelay as [_ Ht].
           destruct (decide ("user-registration" = topic)) as [<-|Hne].
           ++ right. exists u. repeat split.
              unfold kafkajs.log_of at 1. now rewrite Ht, lookup_insert_eq.
           ++ left. unfold kafkajs.log_of at 1. now rewrite Ht, lookup_insert_ne.
        -- left. destruct Hrelay as [_ Hk]. now rewrite Hk.
      * left. destruct (submit_not_staged o u w Hv Hr) as (_ & _ & _ & Hk).
        now rewrite Hk.
    + left. unfold after. now rewrite (submit_invalid o e w Hv).
Qed.

(** POST /api/users answers every error of the submission, whatever its
    origin, with status 400 and the error's own message. *)
Lemma post_users_error (o : jsobj) (e : error) (w : World) :
  result (submitUserData o) w = Throw e ->
  result (post_users (Some o)) w =
    Return (mkResponse 400
              (Failure (if Joi.is_empty (error_message e)
                        then "Failed to submit user data"
                        else error_message e))).
Proof.
  intros Hr. unfold post_users. unfold result, try_catch, bind at 1.
  rewrite (run_pair (submitUserData o) w), Hr. reflexivity.
Qed.

Lemma post_users_accepted (o : jsobj) (s : Submitted) (w : World) :
  result (submitUserData o) w = Return s ->
  result (post_users (Some o)) w =
    Return (mkResponse 201 (Accepted (submitted_message s) (submitted_email s))).
Proof.
  intros Hr. unfold post_users. unfold result, try_catch, bind at 1.
  rewrite (run_pair (submitUserData o) w), Hr. reflexivity.
Qed.

(* ================================================================== *)
(** * Properties: queries and the read path *)
(* ================================================================== *)

(** A statement sent through [query] when PostgreSQL answers: its outcome
    is that of the statement; a failing statement is logged and rethrown. *)
Lemma query_answered (st : pg.statement) (w : World) :
  postgres_answers w = true ->
  result (query st) w = fst (pg.execute st (clock w) (users (postgres w))
                               (users_id_seq (postgres w))) /\
  users (postgres (after (query st) w)) =
    fst (snd (pg.execute st (clock w) (users (postgres w)) (users_id_seq (postgres w)))) /\
  redis (after (query st) w) = redis w /\
  kafka (after (query st) w) = kafka w /\
  clock (after (query st) w) = clock w.
Proof.
  unfold postgres_answers. intros Hp.
  destruct (pool (postgres w)) eqn:Hpool; [|discriminate].
  destruct (pg_fault (postgres w)) eqn:Hf; [discriminate|]. clear Hp.
  unfold query, pg.client_query. run_async. rewrite Hpool, Hf.
  destruct (pg.execute st (clock w) (users (postgres w)) (users_id_seq (postgres w)))
    as [[a|e] [rows seq]]; cbn; now repeat split.
Qed.

(** When PostgreSQL does not answer, [query] throws and changes nothing. *)
Lemma query_unanswered (st : pg.statement) (w : World) :
  postgres_answers w = false ->
  exists e, query st w = (Throw e, w).
Proof.
  unfold postgres_answers, query. run_async.
  destruct (pool (postgres w)); [|eauto].
  destruct (pg_fault (postgres w)); [eauto | discriminate].
Qed.

Lemma select_by_email_sound (e : string) (rows : list Row) (r : Row) :
  In r (pg.select_by_email e rows) -> In r rows /\ row_email r = e.
Proof.
  unfold pg.select_by_email. rewrite filter_In. intros [Hin He]. split; [exact Hin|].
  unfold pg.has_email in He. now apply String.eqb_eq in He.
Qed.

(** The SELECT by email finds the rows with that email, unless the
    parameter holds the character U+0000. *)
Lemma select_user_cases (e : string) (rows : list Row) :
  (pg.has_nul e = false /\ pg.select_user e rows = Return (pg.select_by_email e rows)) \/
  (pg.has_nul e = true /\ exists err, pg.select_user e rows = Throw err).
Proof.
  unfold pg.select_user, pg.text. destruct (pg.has_nul e); cbn [pg.obind]; eauto.
Qed.

(** C5.  [getUserByEmail] with Redis answering.  On a hit (a live entry
    under [user:completed:<email>]) the cached document is returned and
    neither store changes.  On a miss with PostgreSQL answering: if the
    table has a row with that email, that row is returned and written to the
    cache with an expiry 3600 seconds ahead; if it has none, the result is
    [null] and the cache is left as it was.  (PostgreSQL refuses the
    statement only for a lookup string that holds the character U+0000,
    which no email does; the read then throws and the cache is left as it
    was.) *)
Theorem getUserByEmail_cache_aside (email : string) (w : World) :
  redis_answers w = true ->
  let key := "user:completed:" +:+ email in
  let w' := after (getUserByEmail email) w in
  match redis_client.live (clock w) (store (redis w)) key with
  | Some d =>
      result (getUserByEmail email) w = Return (Some d) /\
      store (redis w') = store (redis w) /\
      postgres w' = postgres w
  | None =>
      postgres_answers w = true ->
      users (postgres w') = users (postgres w) /\
      match pg.select_user email (users (postgres w)) with
      | Return (r :: _) =>
          In r (users (postgres w)) /\ row_email r = email /\
          result (getUserByEmail email) w = Return (Some (DRow r)) /\
          store (redis w') =
            <[key := mkEntry (DRow r) (clock w + 1000 * 3600)]> (store (redis w))
      | Return [] =>
          result (getUserByEmail email) w = Return None /\
          store (redis w') = store (redis w)
      | Throw e =>
          pg.has_nul email = true /\
          result (getUserByEmail email) w = Throw e /\
          store (redis w') = store (redis w)
      end
  end.
Proof.
  intros Hr key w'. subst w'. unfold redis_answers in Hr.
  destruct (redisClient (redis w)) eqn:Hc; [|discriminate].
  destruct (redis_fault (redis w)) eqn:Hf; [discriminate|]. clear Hr.
  unfold getUserByEmail. run_async. rewrite Hc, Hf. cbn. fold key.
  destruct (redis_client.live (clock w) (store (redis w)) key) as [d|] eqn:Hlive; cbn.
  - now repeat split.
  - intros Hp.
    match goal with
    | |- context [query ?st ?W] =>
        destruct (query_answered st W Hp) as (Hres & Husers & Hredis & _ & Hclock);
        rewrite (run_pair (query st) W), Hres; cbn in Husers, Hredis, Hres, Hclock |- *
    end.
    pose proof (select_by_email_sound email (users (postgres w))) as Hsound.
    destruct (select_user_cases email (users (postgres w))) as [[Hnul Hsel]|[Hnul [err Hsel]]];
      rewrite Hsel in *; cbn.
    + destruct (pg.select_by_email email (users (postgres w))) as [|r rest]; cbn.
      * rewrite Husers, Hredis. now repeat split.
      * rewrite Hredis. cbn. rewrite Hf. cbn. rewrite Husers, Hclock. cbn.
        destruct (Hsound r) as [Hin He]; [now left|]. now repeat split.
    + rewrite Husers, Hredis. now repeat split.
Qed.

(** GET /api/users/:email answers an absent user with 404, not with an
    error status. *)
Lemma get_user_absent (email : string) (w : World) :
  result (getUserByEmail email) w = Return None ->
  result (get_user email) w = Return (mkResponse 404 (Failure "User not found")).
Proof.
  intros Hr. unfold get_user. unfold result, try_catch, bind at 1.
  rewrite (run_pair (getUserByEmail email) w), Hr. reflexivity.
Qed.

(* ================================================================== *)
(** * Properties: the list read *)
(* ================================================================== *)

Local Instance newer_or_same_trans : Transitive newer_or_same.
Proof. unfold newer_or_same. intros a b c Hab Hbc. lia. Qed.

Lemma insert_desc_perm (r : Row) (rows : list Row) :
  Permutation (r :: rows) (pg.insert_desc r rows).
Proof.
  induction rows as [|r' rows IH]; cbn [pg.insert_desc].
  - reflexivity.
  - destruct (created_at r' <=? created_at r).
    + reflexivity.
    + rewrite perm_swap. now apply perm_skip.
Qed.

Lemma order_by_perm (rows : list Row) :
  Permutation (pg.order_by_created_at_desc rows) rows.
Proof.
  induction rows as [|r rows IH]; cbn [pg.order_by_created_at_desc].
  - reflexivity.
  - rewrite <- insert_desc_perm. now apply perm_skip.
Qed.

Lemma insert_desc_sorted (r : Row) (rows : list Row) :
  Sorted newer_or_same rows -> Sorted newer_or_same (pg.insert_desc r rows).
Proof.
  induction 1 as [|r' rows Hs IH Hhd]; cbn [pg.insert_desc].
  - repeat constructor.
  - destruct (Z.leb_spec (created_at r') (created_at r)) as [Hle|Hgt].
    + constructor; [now constructor | now constructor].
    + constructor; [exact IH|].
      destruct Hhd as [|r'' rows' Hr'']; cbn [pg.insert_desc].
      * constructor. unfold newer_or_same. lia.
      * destruct (created_at r'' <=? created_at r); constructor;
          unfold newer_or_same in *; lia.
Qed.

Lemma order_by_sorted (rows : list Row) :
  newest_first (pg.order_by_created_at_desc rows).
Proof.
  unfold newest_first.
  induction rows as [|r rows IH]; cbn [pg.order_by_created_at_desc].
  - constructor.
  - now apply insert_desc_sorted.
Qed.

(** A window of a list that is newest first is newest first. *)
Lemma window_sorted (n k : nat) (rows : list Row) :
  newest_first rows -> newest_first (firstn n (skipn k rows)).
Proof.
  unfold newest_first. intros Hs.
  apply Sorted_StronglySorted in Hs; [|apply _].
  apply StronglySorted_Sorted.
  rewrite <- (take_drop k rows) in Hs. apply StronglySorted_app_1_r in Hs.
  rewrite <- (take_drop n (drop k rows)) in Hs. now apply StronglySorted_app_1_l in Hs.
Qed.

Lemma window_incl (n k : nat) (rows : list Row) (r : Row) :
  In r (firstn n (skipn k rows)) -> In r rows.
Proof.
  intros Hin.
  rewrite <- (firstn_skipn k rows). apply in_or_app. right.
  rewrite <- (firstn_skipn n (skipn k rows)). apply in_or_app. now left.
Qed.

(** LIMIT and OFFSET: a window of the ordered table for two numbers
    from 0 to the largest bigint, an error for any other. *)
Lemma select_page_cases (limit offset : Z) (rows : list Row) :
  (0 <= limit <= pg.bigint_max /\ 0 <= offset <= pg.bigint_max /\
   pg.select_page limit offset rows =
     Return (firstn (Z.to_nat limit)
               (skipn (Z.to_nat offset) (pg.order_by_created_at_desc rows)))) \/
  ((limit < 0 \/ pg.bigint_max < limit \/ offset < 0 \/ pg.bigint_max < offset) /\
   exists e, pg.select_page limit offset rows = Throw e).
Proof.
  unfold pg.select_page, pg.bigint, pg.bigint_min, pg.bigint_max.
  destruct (Z.ltb_spec limit (-9223372036854775808));
    destruct (Z.ltb_spec 9223372036854775807 limit); cbn [orb pg.obind];
    try (right; split; [lia | eauto]).
  destruct (Z.ltb_spec offset (-9223372036854775808));
    destruct (Z.ltb_spec 9223372036854775807 offset); cbn [orb pg.obind];
    try (right; split; [lia | eauto]).
  destruct (Z.ltb_spec offset 0); [right; split; [lia | eauto]|].
  destruct (Z.ltb_spec limit 0); [right; split; [lia | eauto]|].
  left. repeat split; lia.
Qed.

(** The page [getAllUsers] resolves to when PostgreSQL answers. *)
Lemma getAllUsers_answered (limit offset : Z) (w : World) :
  postgres_answers w = true ->
  0 <= limit <= pg.bigint_max -> 0 <= offset <= pg.bigint_max ->
  result (getAllUsers (Some limit) (Some offset)) w =
    Return (firstn (Z.to_nat limit)
              (skipn (Z.to_nat offset)
                 (pg.order_by_created_at_desc (users (postgres w))))).
Proof.
  intros Hp Hl Ho. unfold getAllUsers.
  change (default 100 (Some limit)) with limit.
  change (default 0 (Some offset)) with offset.
  unfold result at 1, try_catch.
  destruct (query_answered (pg.SelectPage limit offset) w Hp) as (Hres & _).
  rewrite (run_pair (query _) w), Hres.
  cbn [pg.execute fst].
  destruct (select_page_cases limit offset (users (postgres w)))
    as [(_ & _ & ->)|[Hout _]]; [reflexivity | lia].
Qed.

(** The list read throws when PostgreSQL does not answer and when the
    limit or the offset is negative or beyond the largest bigint. *)
Lemma getAllUsers_rejected (limit offset : Z) (w : World) :
  postgres_answers w = false \/
  limit < 0 \/ pg.bigint_max < limit \/ offset < 0 \/ pg.bigint_max < offset ->
  exists e, result (getAllUsers (Some limit) (Some offset)) w = Throw e.
Proof.
  intros H. unfold getAllUsers.
  change (default 100 (Some limit)) with limit.
  change (default 0 (Some offset)) with offset.
  unfold result at 1, try_catch.
  destruct (postgres_answers w) eqn:Hp.
  - destruct (query_answered (pg.SelectPage limit offset) w Hp) as (Hres & _).
    rewrite (run_pair (query _) w), Hres. cbn [pg.execute fst].
    destruct H as [H|H]; [discriminate|].
    destruct (select_page_cases limit offset (users (postgres w)))
      as [(Hl & Ho & _)|[_ [e ->]]]; [lia | cbn; eauto].
  - destruct (query_unanswered (pg.SelectPage limit offset) w Hp) as [e He].
    rewrite He. cbn. eauto.
Qed.

(** C9.  With PostgreSQL answering and a limit and an offset that
    PostgreSQL takes (from 0 to the largest bigint), the list read returns
    the window of [limit] rows after the first [offset] rows of the table
    ordered by creation time, newest first: at most [limit] rows, rows of
    the table, newest first.  For any other limit or offset the list read
    throws.  With three rows in the table, GET /api/users with limit=2
    and offset=0 answers exactly two rows, the two newest, newest first. *)
Theorem list_read_pages (limit offset : Z) (w : World) :
  postgres_answers w = true ->
  (0 <= limit <= pg.bigint_max -> 0 <= offset <= pg.bigint_max ->
   exists page ordered,
     result (getAllUsers (Some limit) (Some offset)) w = Return page /\
     Permutation ordered (users (postgres w)) /\ newest_first ordered /\
     page = firstn (Z.to_nat limit) (skipn (Z.to_nat offset) ordered) /\
     (List.length page <= Z.to_nat limit)%nat /\
     newest_first page /\
     (forall r, In r page -> In r (users (postgres w))))
  /\
  (limit < 0 \/ pg.bigint_max < limit \/ offset < 0 \/ pg.bigint_max < offset ->
   exists e, result (getAllUsers (Some limit) (Some offset)) w = Throw e)
  /\
  (List.length (users (postgres w)) = 3%nat ->
   exists a b c,
     result (get_users (Some 2) (Some 0)) w = Return (mkResponse 200 (Page 2 [a; b])) /\
     Permutation [a; b; c] (users (postgres w)) /\
     created_at c <= created_at b <= created_at a).
Proof.
  intros Hp. split; [|split].
  - intros Hl Ho.
    exists (firstn (Z.to_nat limit)
              (skipn (Z.to_nat offset) (pg.order_by_created_at_desc (users (postgres w))))),
           (pg.order_by_created_at_desc (users (postgres w))).
    split; [now apply getAllUsers_answered|].
    split; [apply order_by_perm|].
    split; [apply order_by_sorted|].
    split; [reflexivity|].
    split; [apply firstn_le_length|].
    split; [apply window_sorted, order_by_sorted|].
    intros r Hin. apply window_incl in Hin.
    now apply (Permutation_in _ (order_by_perm (users (postgres w)))).
  - intros Hout. apply getAllUsers_rejected. now right.
  - intros Hlen.
    pose proof (order_by_perm (users (postgres w))) as Hperm.
    pose proof (order_by_sorted (users (postgres w))) as Hsorted.
    pose proof (Permutation_length Hperm) as Hl. rewrite Hlen in Hl.
    destruct (pg.order_by_created_at_desc (users (postgres w)))
      as [|a [|b [|c [|d rest]]]] eqn:Hord; try discriminate.
    exists a, b, c. split; [|split; [exact Hperm|]].
    + unfold get_users. unfold result, try_catch, bind at 1. cbn [parseInt_or].
      rewrite (run_pair (getAllUsers _ _) w).
      rewrite (getAllUsers_answered 2 0 w Hp) by (unfold pg.bigint_max; lia).
      rewrite Hord. reflexivity.
    + unfold newest_first in Hsorted.
      inversion Hsorted as [|? ? Hs1 Hh1]; subst.
      inversion Hs1 as [|? ? Hs2 Hh2]; subst.
      inversion Hh1; subst. inversion Hh2; subst. unfold newer_or_same in *. lia.
Qed.
(* ================================================================== *)
(** * Properties: the upsert *)
(* ================================================================== *)











(** With both stores answering and the statement succeeding, the upsert
    returns the row, writes the completion entry for 86400 seconds and
    removes the pending entry. *)
Lemma save_succeeds (userData : jsobj) (w : World) (rs rows' : list Row) (seq' : Z) :
  postgres_answers w = true ->
  redis_answers w = true ->
  inserted userData w = (Return rs, (rows', seq')) ->
  result (saveUserToDatabase userData) w = Return (head rs) /\
  users (postgres (after (saveUserToDatabase userData) w)) = rows' /\
  store (redis (after (saveUserToDatabase userData) w)) =
    delete ("user:pending:" +:+ template (prop userData "email"))
      (<["user:completed:" +:+ template (prop userData "email") :=
           mkEntry (DSaved (clock w) (head rs)) (clock w + 1000 * 86400)]>
         (store (redis w))).
Proof.
  intros Hp Hr Hex. unfold redis_answers in Hr.
  destruct (redisClient (redis w)) eqn:Hc; [|discriminate].
  destruct (redis_fault (redis w)) eqn:Hf; [discriminate|]. clear Hr.
  destruct (query_answered (insert_of userData) w Hp) as (Hres & Husers & Hredis & _ & Hclock).
  fold (inserted userData w) in Hres, Husers. rewrite Hex in Hres, Husers.
  cbn [fst snd] in Hres, Husers.
  assert (Hrun : exists w',
            saveUserToDatabase userData w = (Return (head rs), w') /\
            users (postgres w') = rows' /\
            store (redis w') =
              delete ("user:pending:" +:+ template (prop userData "email"))
                (<["user:completed:" +:+ template (prop userData "email") :=
                     mkEntry (DSaved (clock w) (head rs)) (clock w + 1000 * 86400)]>
                   (store (redis w)))).
  { unfold saveUserToDatabase. fold (insert_of userData).
    unfold try_catch, bind at 1.
    rewrite (run_pair (query (insert_of userData)) w), Hres.
    set (w1 := after (query (insert_of userData)) w) in *.
    run_async. rewrite Hredis, Hc, Hclock. cbn. rewrite Hredis, Hf. cbn.
    rewrite Hf. cbn. eexists. split; [reflexivity|]. cbn. now rewrite Husers. }
  destruct Hrun as (w' & Hrun & Hu & Hs). unfold result, after. now rewrite Hrun.
Qed.

(** The upsert resolves only when both stores answered and the statement
    succeeded. *)
Lemma save_resolved (userData : jsobj) (w : World) (x : option Row) :
  result (saveUserToDatabase userData) w = Return x ->
  postgres_answers w = true /\ redis_answers w = true /\
  exists rs rows' seq', inserted userData w = (Return rs, (rows', seq')) /\ x = head rs.
Proof.
  unfold saveUserToDatabase. fold (insert_of userData). unfold result, try_catch, bind at 1.
  destruct (postgres_answers w) eqn:Hp.
  - destruct (query_answered (insert_of userData) w Hp) as (Hres & _ & Hredis & _).
    fold (inserted userData w) in Hres.
    rewrite (run_pair (query (insert_of userData)) w), Hres.
    set (w1 := after (query (insert_of userData)) w) in *.
    destruct (inserted userData w) as [[rs|e] [rows' seq']] eqn:Hex; cbn [fst].
    + unfold redis_answers. run_async. rewrite Hredis.
      destruct (redisClient (redis w)) eqn:Hc; [|discriminate].
      cbn. rewrite Hredis.
      destruct (redis_fault (redis w)) eqn:Hf; [discriminate|].
      cbn. rewrite Hf. cbn. intros [= <-]. repeat split. eauto.
    + discriminate.
  - destruct (query_unanswered (insert_of userData) w Hp) as [e He].
    rewrite He. discriminate.
Qed.



Lemma answers_after_save (userData : jsobj) (w : World) :
  postgres_answers (after (saveUserToDatabase userData) w) = postgres_answers w /\
  redis_answers (after (saveUserToDatabase userData) w) = redis_answers w.
Proof.
  split.
  - apply (@preserves_saveUserToDatabase
             (fun w' => postgres_answers w' = postgres_answers w)); try reflexivity.
    + intros w' c H. exact H.
    + intros w' s H. exact H.
    + intros st w' H. unfold after, pg.client_query.
      now destruct (pg.execute st (clock w') (users (postgres w'))
                      (users_id_seq (postgres w'))) as [r [rows seq]].
  - apply (@preserves_saveUserToDatabase
             (fun w' => redis_answers w' = redis_answers w)); try reflexivity.
    + intros w' c H. exact H.
    + intros w' s H. exact H.
    + intros st w' H. unfold after, pg.client_query.
      now destruct (pg.execute st (clock w') (users (postgres w'))
                      (users_id_seq (postgres w'))) as [r [rows seq]].
Qed.


(* ================================================================== *)
(** * Properties: the consumer *)
(* ================================================================== *)

(** The handler catches whatever its body throws. *)
Lemma eachMessage_resolves (m : Message) (w : World) :
  result (eachMessage m) w = Return tt.
Proof.
  unfold eachMessage, result, try_catch.
  match goal with |- context [match ?body w with _ => _ end] => destruct (body w) as [[[]|e] w'] end;
    reflexivity.
Qed.

(** The handler leaves the relay alone. *)
Lemma eachMessage_keeps_kafka (m : Message) (w : World) :
  kafka (after (eachMessage m) w) = kafka w.
Proof.
  apply (@preserves_eachMessage (fun w' => kafka w' = kafka w)); try reflexivity.
  - intros w' c H. exact H.
  - intros w' s H. exact H.
  - intros st w' H. unfold after, pg.client_query.
    now destruct (pg.execute st (clock w') (users (postgres w'))
                    (users_id_seq (postgres w'))) as [r [rows seq]].
Qed.

(** What the handler logs when its body throws. *)
Lemma eachMessage_logs_failure (m : Message) (o : jsobj) (e : error) (w : World) :
  msg_value m = Json o ->
  result (saveUserToDatabase o)
    (with_console (mkLog Stdout "Processing user registration from Kafka:" None
                   :: console w) w) = Throw e ->
  head (console (after (eachMessage m) w)) =
    Some (mkLog Stderr "Error processing Kafka message:" (Some (error_message e))).
Proof.
  intros Hm Hsave. unfold eachMessage, after, try_catch, bind at 1. rewrite Hm.
  cbn [JSON_parse ret]. unfold bind at 1, console_log at 1.
  unfold bind at 1.
  match goal with
  | |- context [saveUserToDatabase o ?W] =>
      rewrite (run_pair (saveUserToDatabase o) W), Hsave
  end.
  reflexivity.
Qed.

(** What the handler logs when the message is not JSON. *)
Lemma eachMessage_logs_parse_failure (m : Message) (raw : string) (w : World) :
  msg_value m = Malformed raw ->
  exists e,
    result (JSON_parse (msg_value m)) w = Throw e /\
    head (console (after (eachMessage m) w)) =
      Some (mkLog Stderr "Error processing Kafka message:" (Some (error_message e))).
Proof.
  intros Hm. unfold eachMessage, after, try_catch, bind at 1. rewrite Hm.
  eexists. split; reflexivity.
Qed.

(** One cycle of the loop: the offset moves past the message at hand,
    whatever the handler met; with nothing to fetch the cycle is idle. *)
Lemma cycle_advances (w : World) :
  result startConsumer_cycle w = Return tt /\
  topics (kafka (after startConsumer_cycle w)) = topics (kafka w) /\
  committed (kafka (after startConsumer_cycle w)) =
    if decide (committed (kafka w)
               < List.length (kafkajs.log_of "user-registration" (kafka w)))%nat
    then S (committed (kafka w)) else committed (kafka w).
Proof.
  unfold startConsumer_cycle, run_cycle, result, after.
  destruct (kafkajs.log_of "user-registration" (kafka w) !! committed (kafka w))
    as [m|] eqn:Hm.
  - pose proof (eachMessage_resolves m w) as Hr.
    pose proof (eachMessage_keeps_kafka m w) as Hk.
    unfold result, after in Hr, Hk.
    destruct (eachMessage m w) as [r w']. cbn in Hr, Hk. subst r. cbn. rewrite Hk.
    apply lookup_lt_Some in Hm.
    destruct (decide _); [now repeat split | contradiction].
  - apply lookup_ge_None in Hm.
    destruct (decide _); [lia | now repeat split].
Qed.

(** The loop goes on: [n] cycles never reject and consume up to [n] of the
    messages that are waiting. *)
Lemma cycles_advance (n : nat) (w : World) :
  (committed (kafka w) <= List.length (kafkajs.log_of "user-registration" (kafka w)))%nat ->
  result (startConsumer_cycles n) w = Return tt /\
  topics (kafka (after (startConsumer_cycles n) w)) = topics (kafka w) /\
  committed (kafka (after (startConsumer_cycles n) w)) =
    Nat.min (committed (kafka w) + n)
      (List.length (kafkajs.log_of "user-registration" (kafka w))).
Proof.
  revert w. induction n as [|n IH]; intros w Hle.
  - cbn. repeat split. lia.
  - cbn [startConsumer_cycles]. unfold result, after, bind.
    destruct (cycle_advances w) as (Hr & Ht & Hc).
    rewrite (run_pair startConsumer_cycle w), Hr.
    set (w1 := after startConsumer_cycle w) in *.
    assert (Hlog : kafkajs.log_of "user-registration" (kafka w1)
                   = kafkajs.log_of "user-registration" (kafka w))
      by now apply log_of_topics.
    destruct (IH w1) as (Hr' & Ht' & Hc').
    { rewrite Hlog, Hc. destruct (decide _); lia. }
    unfold result, after in Hr', Ht', Hc'.
    split; [exact Hr'|]. split; [now rewrite Ht'|].
    rewrite Hc', Hlog, Hc. destruct (decide _); lia.
Qed.

(** C1 (amended).  The handler never rejects: when the parsing or the
    upsert throws, the error is caught and logged.  So for a message
    waiting at the group's offset, the cycle resolves, the offset moves
    past the message and the topic is unchanged: the message is
    acknowledged, not redelivered.  And the loop goes on: any number of
    cycles resolve and consume that many of the waiting messages. *)
Theorem consumer_acknowledges_failed_messages (m : Message) (w : World) (n : nat) :
  kafkajs.log_of "user-registration" (kafka w) !! committed (kafka w) = Some m ->
  result (eachMessage m) w = Return tt /\
  (forall raw,
     msg_value m = Malformed raw ->
     exists e,
       result (JSON_parse (msg_value m)) w = Throw e /\
       head (console (after startConsumer_cycle w)) =
         Some (mkLog Stderr "Error processing Kafka message:" (Some (error_message e)))) /\
  (forall o e,
     msg_value m = Json o ->
     result (saveUserToDatabase o)
       (with_console (mkLog Stdout "Processing user registration from Kafka:" None
                      :: console w) w) = Throw e ->
     head (console (after startConsumer_cycle w)) =
       Some (mkLog Stderr "Error processing Kafka message:" (Some (error_message e)))) /\
  result startConsumer_cycle w = Return tt /\
  committed (kafka (after startConsumer_cycle w)) = S (committed (kafka w)) /\
  topics (kafka (after startConsumer_cycle w)) = topics (kafka w) /\
  result (startConsumer_cycles n) w = Return tt /\
  committed (kafka (after (startConsumer_cycles n) w)) =
    Nat.min (committed (kafka w) + n)
      (List.length (kafkajs.log_of "user-registration" (kafka w))).
Proof.
  intros Hm. pose proof (lookup_lt_Some _ _ _ Hm) as Hlt.
  destruct (cycle_advances w) as (Hr & Ht & Hc).
  destruct (cycles_advance n w ltac:(lia)) as (Hrn & _ & Hcn).
  assert (Hcon : console (after startConsumer_cycle w) = console (after (eachMessage m) w)).
  { unfold startConsumer_cycle, run_cycle, after. rewrite Hm.
    pose proof (eachMessage_resolves m w) as Hres. unfold result in Hres.
    destruct (eachMessage m w) as [r w']. cbn in Hres. subst r. reflexivity. }
  split; [apply eachMessage_resolves|].
  split; [|split].
  - intros raw Hraw. rewrite Hcon. now apply (eachMessage_logs_parse_failure m raw).
  - intros o e Ho Hsave. rewrite Hcon. now apply (eachMessage_logs_failure m o e w).
  - split; [exact Hr|]. split.
    + rewrite Hc. destruct (decide _); [reflexivity | lia].
    + now repeat split.
Qed.
(* ================================================================== *)
(** * Properties: the health check *)
(* ================================================================== *)

(** What GET /api/health answers, in terms of what the checks observe. *)
Lemma get_health_answer (w : World) :
  result get_health w =
    Return (if redis_answers w && postgres_answers w && producer_initialized w
            then 200 else 503,
            mkHealth "OK" (clock w)
              (mkServices (status_of (redis_answers w))
                          (status_of (postgres_answers w))
                          (status_of (producer_initialized w)))).
Proof.
  destruct w as [now [rc rf st] [pl pf us sq] [pr cs bf tp cm] con].
  destruct rc, rf, pl, pf, pr; reflexivity.
Qed.

Lemma status_of_healthy (b : bool) : status_of b = "healthy" <-> b = true.
Proof. destruct b; cbn; split; congruence. Qed.

(** C6.  GET /api/health answers 200 exactly when the three checks pass,
    which is exactly when the three statuses in the body are [healthy];
    otherwise it answers 503.  Each status is that of its own check, so
    that when exactly one check fails the answer is 503 and the two other
    statuses are [healthy]. *)
Theorem health_aggregate (w : World) :
  exists code h,
    result get_health w = Return (code, h) /\
    (code = 200 \/ code = 503) /\
    (code = 200 <->
     redis_answers w = true /\ postgres_answers w = true /\
     producer_initialized w = true) /\
    (code = 200 <->
     redis_status (services h) = "healthy" /\
     postgres_status (services h) = "healthy" /\
     kafka_status (services h) = "healthy") /\
    redis_status (services h) = status_of (redis_answers w) /\
    postgres_status (services h) = status_of (postgres_answers w) /\
    kafka_status (services h) = status_of (producer_initialized w) /\
    (redis_answers w = false -> postgres_answers w = true ->
     producer_initialized w = true ->
     code = 503 /\ redis_status (services h) = "unhealthy" /\
     postgres_status (services h) = "healthy" /\ kafka_status (services h) = "healthy") /\
    (redis_answers w = true -> postgres_answers w = false ->
     producer_initialized w = true ->
     code = 503 /\ redis_status (services h) = "healthy" /\
     postgres_status (services h) = "unhealthy" /\ kafka_status (services h) = "healthy") /\
    (redis_answers w = true -> postgres_answers w = true ->
     producer_initialized w = false ->
     code = 503 /\ redis_status (services h) = "healthy" /\
     postgres_status (services h) = "healthy" /\ kafka_status (services h) = "unhealthy").
Proof.
  eexists _, _. split; [apply get_health_answer|]. cbn [services redis_status
    postgres_status kafka_status].
  destruct (redis_answers w), (postgres_answers w), (producer_initialized w); cbn;
    repeat split; try (intros; discriminate); try tauto; try lia;
    intros; repeat match goal with H : _ /\ _ |- _ => destruct H end;
    try discriminate; auto.
Qed.

Lemma producer_stable (h : option handle) : stable (fun w => producer (kafka w) = h).
Proof.
  constructor.
  1-4, 6-9: intros w x H; exact H.
  intros st w H. unfold after, pg.client_query.
  now destruct (pg.execute st (clock w) (users (postgres w))
                  (users_id_seq (postgres w))) as [r [rows seq]].
Qed.

Lemma initKafka_sets_producer (w : World) :
  producer (kafka (after initKafka w)) = Some Handle.
Proof.
  destruct w as [now r p [pr cs bf tp cm] con].
  destruct bf; reflexivity.
Qed.

Lemma reported_kafka_status_eq (w : World) :
  reported_kafka_status w = status_of (producer_initialized w).
Proof. unfold reported_kafka_status. now rewrite get_health_answer. Qed.

(** C10.  The relay status in GET /api/health is [healthy] exactly when the
    producer handle exists.  It does not depend on whether the broker can
    be reached; and once [initKafka] has run, it is [healthy] after
    anything that can happen to the service, broker failures included. *)
Theorem relay_status_is_producer_handle (w : World) (f : option string)
    (evs : list event) :
  (reported_kafka_status w = "healthy" <-> producer (kafka w) <> None) /\
  reported_kafka_status (with_broker_fault f w) = reported_kafka_status w /\
  reported_kafka_status (run evs (after initKafka w)) = "healthy".
Proof.
  rewrite !reported_kafka_status_eq. split; [|split].
  - rewrite status_of_healthy. unfold producer_initialized.
    destruct (producer (kafka w)); split; congruence.
  - reflexivity.
  - apply status_of_healthy. unfold producer_initialized.
    rewrite (run_keeps _ evs (after initKafka w) (producer_stable (Some Handle))
               (initKafka_sets_producer w)).
    reflexivity.
Qed.

(* ================================================================== *)
(** * Further properties: what a validated record is *)
(* ================================================================== *)

Lemma accepted_by_rules (is_email : string -> bool) (l : string)
    (rs : list Joi.rule) (v : option jsval) (s : string) :
  Joi.validate_string is_email l (Joi.rules rs) v = inr s ->
  v = Some (JStr s) /\ Joi.is_empty s = false /\ Joi.check_all is_email l rs s = None.
Proof.
  destruct v as [[ | b | n | s']|]; cbn [Joi.validate_string]; try discriminate.
  destruct (Joi.is_empty s') eqn:He; [discriminate|].
  destruct (Joi.check_all is_email l rs s') eqn:Hc; [discriminate|].
  intros [= <-]. now repeat split.
Qed.

Lemma accepted_by_valid (is_email : string -> bool) (l : string)
    (allowed : list string) (v : option jsval) (s : string) :
  Joi.validate_string is_email l (Joi.valid allowed) v = inr s ->
  v = Some (JStr s) /\ one_of allowed s = true.
Proof.
  destruct v as [[ | b | n | s']|]; cbn [Joi.validate_string]; try discriminate.
  unfold one_of. destruct (existsb (String.eqb s') allowed) eqn:He; [|discriminate].
  intros [= <-]. now split.
Qed.

Lemma bounds_checked (is_email : string -> bool) (l : string) (lo hi : nat) (s : string) :
  Joi.check_all is_email l [Joi.min lo; Joi.max hi] s = None <->
  length_within lo hi s = true.
Proof.
  cbn [Joi.check_all Joi.check]. unfold length_within.
  destruct (lo <=? String.length s)%nat; cbn [andb]; [|split; discriminate].
  destruct (String.length s <=? hi)%nat; split; congruence.
Qed.

Lemma email_checked (l : string) (s : string) :
  Joi.check_all email_syntax l [Joi.email] s = None <-> email_syntax s = true.
Proof.
  cbn [Joi.check_all Joi.check]. destruct (email_syntax s); split; congruence.
Qed.

(** What validation has established about the record it returns. *)
Lemma validated (o : jsobj) (u : User) :
  validateUserData o = Return u ->
  (forall f, prop o (label f) = Some (JStr (field_of u f))) /\
  (forall f, rule_holds f (field_of u f) = true) /\
  Joi.is_empty (email u) = false /\
  only_known_fields o = true.
Proof.
  unfold validateUserData, userSchema, Joi.key.
  destruct (Joi.validate_string _ "firstName" _ _) as [e|fn] eqn:H1; [discriminate|].
  destruct (Joi.validate_string _ "lastName" _ _) as [e|ln] eqn:H2; [discriminate|].
  destruct (Joi.validate_string _ "email" _ _) as [e|em] eqn:H3; [discriminate|].
  destruct (Joi.validate_string _ "gender" _ _) as [e|g] eqn:H4; [discriminate|].
  destruct (Joi.validate_string _ "sex" _ _) as [e|sx] eqn:H5; [discriminate|].
  destruct (Joi.validate_string _ "occupation" _ _) as [e|oc] eqn:H6; [discriminate|].
  unfold Joi.closed.
  destruct (Joi.unknown userSchema_keys o) eqn:Hk; [discriminate|].
  intros [= <-].
  apply accepted_by_rules in H1 as (P1 & _ & C1).
  apply accepted_by_rules in H2 as (P2 & _ & C2).
  apply accepted_by_rules in H3 as (P3 & E3 & C3).
  apply accepted_by_valid in H4 as (P4 & C4).
  apply accepted_by_valid in H5 as (P5 & C5).
  apply accepted_by_rules in H6 as (P6 & _ & C6).
  apply bounds_checked in C1, C2, C6. apply email_checked in C3.
  split; [intros []; assumption|]. split; [intros []; assumption|].
  split; [exact E3|]. now apply unknown_none_iff.
Qed.

Lemma length_within_nonempty (lo hi : nat) (s : string) :
  (0 < lo)%nat -> length_within lo hi s = true -> Joi.is_empty s = false.
Proof.
  intros Hlo H. destruct s; [|reflexivity].
  unfold length_within in H. cbn in H. destruct lo; [lia | discriminate].
Qed.

(** A record whose fields satisfy the rules passes validation as it is. *)
Lemma record_validates (u : User) :
  (forall f, rule_holds f (field_of u f) = true) ->
  Joi.is_empty (email u) = false ->
  validateUserData (user_obj u) = Return u.
Proof.
  intros Hr He. destruct u as [fn ln em g sx oc].
  pose proof (Hr FirstName) as R1. pose proof (Hr LastName) as R2.
  pose proof (Hr Email) as R3. pose proof (Hr Gender) as R4.
  pose proof (Hr Sex) as R5. pose proof (Hr Occupation) as R6.
  cbn [rule_holds field_of firstName lastName email gender sex occupation] in *.
  unfold validateUserData, userSchema, Joi.key, user_obj.
  cbn [prop String.eqb Ascii.eqb Bool.eqb firstName lastName email gender sex occupation].
  cbn [Joi.validate_string].
  rewrite (length_within_nonempty 2 100 fn) by (lia || assumption).
  rewrite (proj2 (bounds_checked email_syntax "firstName" 2 100 fn) R1).
  rewrite (length_within_nonempty 2 100 ln) by (lia || assumption).
  rewrite (proj2 (bounds_checked email_syntax "lastName" 2 100 ln) R2).
  rewrite He, (proj2 (email_checked "email" em) R3).
  unfold one_of in R4, R5. rewrite R4, R5.
  rewrite (length_within_nonempty 2 255 oc) by (lia || assumption).
  rewrite (proj2 (bounds_checked email_syntax "occupation" 2 255 oc) R6).
  reflexivity.
Qed.

(** X1.  Validation is stable: the object of a record that validation
    returned (which is what is staged and published) validates again, to
    the same record. *)
Theorem validated_record_validates_again (o : jsobj) (u : User) :
  validateUserData o = Return u ->
  validateUserData (user_obj u) = Return u.
Proof.
  intros Hv. destruct (validated o u Hv) as (_ & Hr & He & _).
  now apply record_validates.
Qed.

(* ================================================================== *)
(** * Further properties: from a valid submission to the row *)
(* ================================================================== *)








Lemma failed_insert_keeps_rows (o : jsobj) (w : World) (e : error) :
  fst (inserted o w) = Throw e -> fst (snd (inserted o w)) = users (postgres w).
Proof.
  unfold inserted, insert_of. cbn [pg.execute]. unfold pg.insert_user.
  destruct (pg.propose _ _ _ _ _ _) as [[[[[[c1 c2] c3] c4] c5] c6]|e1]; [|reflexivity].
  destruct (pg.constrain c1 c2 c3 c4 c5 c6) as [p|e2]; [|reflexivity].
  destruct (pg.upsert _ _ _ _). discriminate.
Qed.

(** An upsert whose statement is not carried out writes nothing. *)
Lemma save_not_inserted (o : jsobj) (w : World) :
  postgres_answers w = false \/ (exists e, fst (inserted o w) = Throw e) ->
  users (postgres (after (saveUserToDatabase o) w)) = users (postgres w) /\
  store (redis (after (saveUserToDatabase o) w)) = store (redis w).
Proof.
  intros H.
  assert (Hrun : exists e w',
            saveUserToDatabase o w = (Throw e, w') /\
            users (postgres w') = users (postgres w) /\
            store (redis w') = store (redis w)).
  { unfold saveUserToDatabase. fold (insert_of o). unfold try_catch, bind at 1.
    destruct (postgres_answers w) eqn:Hp.
    - destruct H as [H|[e He]]; [discriminate|].
      destruct (query_answered (insert_of o) w Hp) as (Hres & Husers & Hredis & _).
      fold (inserted o w) in Hres, Husers.
      rewrite (failed_insert_keeps_rows o w e He) in Husers. rewrite He in Hres.
      rewrite (run_pair (query (insert_of o)) w), Hres.
      eexists _, _. split; [reflexivity|]. cbn. now rewrite Husers, Hredis.
    - destruct (query_unanswered (insert_of o) w Hp) as [e He]. rewrite He.
      eexists _, _. split; [reflexivity|]. now split. }
  destruct Hrun as (e & w' & Hrun & Hu & Hs). unfold after. now rewrite Hrun.
Qed.


(** The handler on a JSON message: the upsert of the parsed object, with
    a console line before and a console line after. *)
Lemma eachMessage_json (m : Message) (o : jsobj) (w : World) :
  msg_value m = Json o ->
  let w0 := with_console (mkLog Stdout "Processing user registration from Kafka:" None
                          :: console w) w in
  let w1 := after (saveUserToDatabase o) w0 in
  exists line, after (eachMessage m) w = with_console (line :: console w1) w1.
Proof.
  intros Hm w0 w1. unfold eachMessage, after at 1, try_catch, bind at 1. rewrite Hm.
  cbn [JSON_parse ret]. unfold bind at 1, console_log at 1. unfold bind at 1.
  fold w0. rewrite (run_pair (saveUserToDatabase o) w0). fold w1.
  destruct (result (saveUserToDatabase o) w0); eexists; reflexivity.
Qed.

(** The handler on a message that is not JSON: one console line. *)
Lemma eachMessage_malformed (m : Message) (raw : string) (w : World) :
  msg_value m = Malformed raw ->
  exists line, after (eachMessage m) w = with_console (line :: console w) w.
Proof.
  intros Hm. unfold eachMessage, after, try_catch, bind at 1. rewrite Hm.
  eexists. reflexivity.
Qed.

(** A cycle with a message at hand: the handler, then the commit. *)
Lemma cycle_on (m : Message) (w : World) :
  kafkajs.log_of "user-registration" (kafka w) !! committed (kafka w) = Some m ->
  after startConsumer_cycle w =
    with_kafka (with_committed (S (committed (kafka (after (eachMessage m) w))))
                  (kafka (after (eachMessage m) w)))
      (after (eachMessage m) w).
Proof.
  intros Hm. unfold startConsumer_cycle, run_cycle, after at 1. rewrite Hm.
  pose proof (eachMessage_resolves m w) as Hr. unfold result in Hr.
  rewrite (run_pair (eachMessage m) w). unfold result. rewrite Hr. reflexivity.
Qed.

Lemma statements_blind (P : World -> Prop) :
  (forall w rows seq, P w -> P (with_postgres (with_table rows seq (postgres w)) w)) ->
  forall st, preserves P (pg.client_query st).
Proof.
  intros Hb st w H. unfold after, pg.client_query.
  destruct (pg.execute st (clock w) (users (postgres w)) (users_id_seq (postgres w)))
    as [r [rows seq]]. now apply Hb.
Qed.


Lemma pending_not_completed (e e' : string) :
  "user:pending:" +:+ e <> "user:completed:" +:+ e'.
Proof. intros H. cbn in H. inversion H. Qed.



Lemma getUserByEmail_hit (email : string) (d : doc) (w : World) :
  redis_answers w = true ->
  redis_client.live (clock w) (store (redis w)) ("user:completed:" +:+ email) = Some d ->
  result (getUserByEmail email) w = Return (Some d).
Proof.
  intros Hr Hlive. unfold redis_answers in Hr.
  destruct (redisClient (redis w)) eqn:Hc; [|discriminate].
  destruct (redis_fault (redis w)) eqn:Hf; [discriminate|].
  unfold getUserByEmail. run_async. rewrite Hc, Hf. cbn. now rewrite Hlive.
Qed.

(** X4.  Read your write.  Once the upsert of a message has resolved to a
    row, a read of the message's email is served that row from the
    completion cache, for the next 86400 seconds, as long as Redis
    answers. *)
Theorem saved_row_is_read_back (userData : jsobj) (w : World) (r : Row) (t : Z) :
  result (saveUserToDatabase userData) w = Return (Some r) ->
  clock w <= t < clock w + 86400000 ->
  result (getUserByEmail (template (prop userData "email")))
    (with_clock t (after (saveUserToDatabase userData) w)) =
    Return (Some (DSaved (clock w) (Some r))).
Proof.
  intros Hres Ht.
  destruct (save_resolved userData w _ Hres) as (Hp & Hr & rs & rows' & seq' & Hex & Hhead).
  destruct (save_succeeds userData w rs rows' seq' Hp Hr Hex) as (_ & _ & Hstore).
  destruct (answers_after_save userData w) as [_ Hr'].
  apply getUserByEmail_hit.
  - change (redis_answers (after (saveUserToDatabase userData) w) = true). now rewrite Hr'.
  - cbn [clock with_clock redis store]. rewrite Hstore. unfold redis_client.live.
    rewrite lookup_delete_ne by apply pending_not_completed.
    rewrite lookup_insert_eq. cbn [expires_at value]. rewrite <- Hhead.
    destruct (Z.ltb_spec t (clock w + 1000 * 86400)); [reflexivity | lia].
Qed.

(** X5.  The upsert is not atomic with its cache update.  When the
    statement succeeds but Redis does not answer, the upsert throws, the
    table keeps the new state and the Redis keys are as they were. *)
Theorem row_is_kept_when_the_cache_fails (userData : jsobj) (w : World)
    (rs rows' : list Row) (seq' : Z) :
  postgres_answers w = true ->
  redis_answers w = false ->
  inserted userData w = (Return rs, (rows', seq')) ->
  (exists e, result (saveUserToDatabase userData) w = Throw e) /\
  users (postgres (after (saveUserToDatabase userData) w)) = rows' /\
  store (redis (after (saveUserToDatabase userData) w)) = store (redis w).
Proof.
  intros Hp Hr Hex.
  destruct (query_answered (insert_of userData) w Hp) as (Hres & Husers & Hredis & _).
  fold (inserted userData w) in Hres, Husers. rewrite Hex in Hres, Husers.
  cbn [fst snd] in Hres, Husers.
  assert (Hrun : exists e w',
            saveUserToDatabase userData w = (Throw e, w') /\
            users (postgres w') = rows' /\ store (redis w') = store (redis w)).
  { unfold saveUserToDatabase. fold (insert_of userData).
    unfold try_catch, bind at 1.
    rewrite (run_pair (query (insert_of userData)) w), Hres.
    set (w1 := after (query (insert_of userData)) w) in *.
    unfold redis_answers in Hr. run_async. rewrite Hredis.
    destruct (redisClient (redis w)) eqn:Hc; cbn.
    - rewrite Hredis. destruct (redis_fault (redis w)) eqn:Hf; [|discriminate].
      cbn. eexists _, _. split; [reflexivity|]. cbn. now rewrite Hredis.
    - eexists _, _. split; [reflexivity|]. cbn. now rewrite Hredis. }
  destruct Hrun as (e & w' & Hrun & Hu & Hs). unfold result, after.
  rewrite Hrun. cbn [fst snd]. eauto.
Qed.

(** X6.  A message that cannot be persisted is dropped.  When the message
    at the group's offset is not JSON, or PostgreSQL does not answer, or
    the statement for it fails, the cycle resolves, the table rows and the
    Redis keys are as they were, and the offset has moved past the
    message. *)
Theorem unprocessable_message_is_dropped (m : Message) (w : World) :
  kafkajs.log_of "user-registration" (kafka w) !! committed (kafka w) = Some m ->
  unprocessable m w ->
  result startConsumer_cycle w = Return tt /\
  users (postgres (after startConsumer_cycle w)) = users (postgres w) /\
  store (redis (after startConsumer_cycle w)) = store (redis w) /\
  committed (kafka (after startConsumer_cycle w)) = S (committed (kafka w)).
Proof.
  intros Hm Hun. destruct (cycle_advances w) as (Hres & _ & _).
  split; [exact Hres|]. rewrite (cycle_on m w Hm).
  pose proof (eachMessage_keeps_kafka m w) as Hk. rewrite Hk.
  cbn [postgres redis kafka with_kafka with_committed committed].
  unfold unprocessable in Hun.
  destruct (msg_value m) as [o|raw] eqn:Hv.
  - destruct (eachMessage_json m o w Hv) as [line Hafter]. cbv zeta in Hafter.
    rewrite Hafter. cbn [postgres redis with_console].
    destruct (save_not_inserted o
                (with_console (mkLog Stdout "Processing user registration from Kafka:" None
                               :: console w) w) Hun) as [Hu Hs].
    now repeat split.
  - destruct (eachMessage_malformed m raw w Hv) as [line Hafter].
    rewrite Hafter. now repeat split.
Qed.

(* ================================================================== *)
(** * Further properties: what every run of the service keeps *)
(* ================================================================== *)

Lemma service_key_pending (e : string) : service_key ("user:pending:" +:+ e) = true.
Proof. destruct e; reflexivity. Qed.

Lemma service_key_completed (e : string) : service_key ("user:completed:" +:+ e) = true.
Proof. destruct e; reflexivity. Qed.

Lemma setEx_service_key (key : string) (seconds : Z) (v : doc) :
  service_key key = true ->
  service_keys_only (fun now s => (tt, <[key := mkEntry v (now + 1000 * seconds)]> s)).
Proof.
  intros Hk now s k Hn. cbn [snd]. apply lookup_insert_ne. congruence.
Qed.

Lemma del_service_key (key : string) :
  service_key key = true ->
  service_keys_only (fun (now : Z) (s : gmap string Entry) => (tt, delete key s)).
Proof.
  intros Hk now s k Hn. cbn [snd]. apply lookup_delete_ne. congruence.
Qed.

Section Invariants.

Context {P : World -> Prop}.
Hypothesis P_invariant : invariant P.

Lemma keeps_console_log (text : string) (arg : option string) :
  preserves P (console_log text arg).
Proof. apply preserves_console_log, P_invariant. Qed.

Lemma keeps_console_error (text : string) (arg : option string) :
  preserves P (console_error text arg).
Proof. apply preserves_console_error, P_invariant. Qed.

Lemma keeps_setEx (key : string) (seconds : Z) (v : doc) :
  service_key key = true -> preserves P (redis_client.setEx key seconds v).
Proof. intros Hk. apply P_invariant. now apply setEx_service_key. Qed.

Lemma keeps_del (key : string) :
  service_key key = true -> preserves P (redis_client.del key).
Proof. intros Hk. apply P_invariant. now apply del_service_key. Qed.

Lemma keeps_get (key : string) : preserves P (redis_client.get key).
Proof. apply P_invariant. intros now s k _. reflexivity. Qed.

Lemma keeps_ping : preserves P redis_client.ping.
Proof. apply P_invariant. intros now s k _. reflexivity. Qed.

Lemma keeps_query (st : pg.statement) : preserves P (query st).
Proof. apply preserves_query; apply P_invariant. Qed.

Lemma keeps_pool_query (st : pg.statement) : preserves P (pg.pool_query st).
Proof. apply preserves_pool_query, P_invariant. Qed.

Ltac keep_with extra :=
  repeat first
    [ extra
    | apply keeps_query | apply keeps_pool_query
    | apply keeps_setEx;
      [first [apply service_key_pending | apply service_key_completed]]
    | apply keeps_del;
      [first [apply service_key_pending | apply service_key_completed]]
    | apply keeps_get | apply keeps_ping
    | apply keeps_console_log | apply keeps_console_error
    | apply preserves_Date_now | apply preserves_getRedisClient
    | apply preserves_getPool | apply preserves_getProducer
    | apply preserves_JSON_parse | apply preserves_kafkajs_connect
    | apply preserves_ret | apply preserves_throw | apply preserves_lift
    | apply preserves_try_catch | apply preserves_try_finally | apply preserves_bind
    | match goal with
      | |- forall _, _ => intro
      | |- preserves _ (match ?x with _ => _ end) => destruct x
      | |- preserves _ (if ?x then _ else _) => destruct x
      end ].

Ltac keep := keep_with fail.

Lemma keeps_saveUserToDatabase (userData : jsobj) :
  preserves P (saveUserToDatabase userData).
Proof. unfold saveUserToDatabase. keep. Qed.

Lemma keeps_getAllUsers (limit offset : option Z) : preserves P (getAllUsers limit offset).
Proof. unfold getAllUsers. keep. Qed.

Lemma keeps_getUserByEmail (email : string) : preserves P (getUserByEmail email).
Proof. unfold getUserByEmail. keep. Qed.

Lemma keeps_eachMessage (m : Message) : preserves P (eachMessage m).
Proof. unfold eachMessage. keep_with ltac:(apply keeps_saveUserToDatabase). Qed.

Lemma keeps_get_users (limit_q offset_q : option Z) :
  preserves P (get_users limit_q offset_q).
Proof. unfold get_users. keep_with ltac:(apply keeps_getAllUsers). Qed.

Lemma keeps_get_user (email : string) : preserves P (get_user email).
Proof. unfold get_user. keep_with ltac:(apply keeps_getUserByEmail). Qed.

Lemma keeps_get_health : preserves P get_health.
Proof. unfold get_health. keep. Qed.

Lemma keeps_get_ready : preserves P get_ready.
Proof. unfold get_ready. keep. Qed.

Lemma keeps_sendMessage (topic : string) (message : jsobj) :
  preserves P (sendMessage topic message).
Proof.
  intros w H. unfold after, sendMessage.
  destruct (producer (kafka w)); [|exact H].
  revert w H.
  change (preserves P
            (try_catch
               (now <~ Date_now;
                await kafkajs.send topic [mkMessage None (Json message) now];
                console_log ("Message sent to Kafka topic: " +:+ topic) None)
               (fun e => await console_error "Error sending message to Kafka:"
                                 (Some (error_message e));
                         throw e))).
  keep_with ltac:(apply P_invariant).
Qed.

Lemma keeps_submitUserData (userData : jsobj) : preserves P (submitUserData userData).
Proof. unfold submitUserData. keep_with ltac:(apply keeps_sendMessage). Qed.

Lemma keeps_post_users (req_body : option jsobj) : preserves P (post_users req_body).
Proof. unfold post_users. keep_with ltac:(apply keeps_submitUserData). Qed.

Lemma keeps_startConsumer_cycle : preserves P startConsumer_cycle.
Proof.
  intros w H.
  destruct (kafkajs.log_of "user-registration" (kafka w) !! committed (kafka w))
    as [m|] eqn:Hm.
  - rewrite (cycle_on m w Hm).
    pose proof (eachMessage_keeps_kafka m w) as Hk.
    apply (inv_commit P P_invariant _ m); [now rewrite Hk|].
    now apply keeps_eachMessage.
  - unfold after, startConsumer_cycle, run_cycle. now rewrite Hm.
Qed.

Lemma keeps_step (ev : event) : forall w, P w -> P (step ev w).
Proof.
  intros w H. destruct ev; cbn [step].
  - now apply keeps_post_users.
  - now apply keeps_get_users.
  - now apply keeps_get_user.
  - now apply keeps_get_health.
  - now apply keeps_startConsumer_cycle.
  - pose proof (inv_send P P_invariant "user-registration" [m] w H) as Hs.
    unfold after, kafkajs.send in Hs.
    destruct (broker_fault (kafka w)) eqn:Hf; [|exact Hs].
    apply (inv_broker_fault P P_invariant _ None) in H.
    pose proof (inv_send P P_invariant "user-registration" [m] _ H) as Hs'.
    unfold after, kafkajs.send in Hs'. cbn in Hs'.
    apply (inv_broker_fault P P_invariant _ (Some s)) in Hs'.
    destruct w as [c r p [pr cs bf tp cm] con]. cbn in *. subst bf. exact Hs'.
  - now apply (inv_clock P P_invariant).
  - now apply (inv_redis_fault P P_invariant).
  - now apply (inv_pg_fault P P_invariant).
  - now apply (inv_broker_fault P P_invariant).
Qed.

(** An invariant holds after every run. *)
Lemma run_invariant (evs : list event) : forall w, P w -> P (run evs w).
Proof.
  unfold run. induction evs as [|ev evs IH]; intros w H; cbn [fold_left].
  - exact H.
  - apply IH. now apply keeps_step.
Qed.

End Invariants.

Lemma relay_continues_invariant (w0 : World) : invariant (relay_continues w0).
Proof.
  constructor.
  - intros w c H. exact H.
  - intros A f _ w H. unfold after, redis_client.command.
    destruct (redis_fault (redis w)); [exact H|].
    now destruct (f (clock w) (store (redis w))).
  - apply statements_blind. intros w rows seq H. exact H.
  - intros topic messages w (Hlog & Hmono & Hend). unfold after, kafkajs.send.
    destruct (broker_fault (kafka w)); [now repeat split|].
    unfold relay_continues, snd, with_kafka. cbn [kafka].
    split; [|split].
    + intros t. rewrite log_of_insert.
      destruct (decide (topic = t)) as [->|_]; [|apply Hlog].
      apply prefix_app_r, Hlog.
    + exact Hmono.
    + intros H0. specialize (Hend H0). rewrite log_of_insert.
      cbn [committed with_topics] in *.
      destruct (decide (topic = "user-registration")) as [->|_]; [|exact Hend].
      rewrite length_app. lia.
  - intros w m Hm (Hlog & Hmono & Hend). apply lookup_lt_Some in Hm.
    split; [exact Hlog|]. cbn [kafka with_kafka committed with_committed].
    split; [lia|]. intros _.
    change (kafkajs.log_of "user-registration" (with_committed _ (kafka w)))
      with (kafkajs.log_of "user-registration" (kafka w)).
    lia.
  - intros w ms H. exact H.
  - intros w f H. exact H.
  - intros w f H. exact H.
  - intros w f H. exact H.
Qed.

(** X7.  The relay is append-only and the consumer only moves forward.
    Whatever happens to the service, every topic log keeps the messages it
    had, in place; the group offset never goes back, and never gets past
    the end of the log. *)
Theorem relay_only_moves_forward (evs : list event) (w : World) :
  relay_continues w (run evs w).
Proof.
  apply (run_invariant (relay_continues_invariant w)).
  split; [reflexivity|]. split; [lia | tauto].
Qed.

Lemma other_key_invariant (w0 : World) (k : string) :
  service_key k = false ->
  invariant (fun w => store (redis w) !! k = store (redis w0) !! k).
Proof.
  intros Hk. constructor.
  - intros w c H. exact H.
  - intros A f Hf w H. unfold after, redis_client.command.
    destruct (redis_fault (redis w)); [exact H|].
    pose proof (Hf (clock w) (store (redis w)) k Hk) as Hsame.
    destruct (f (clock w) (store (redis w))) as [a s]. cbn in *. congruence.
  - apply statements_blind. intros w rows seq H. exact H.
  - intros topic messages w H. unfold after, kafkajs.send.
    now destruct (broker_fault (kafka w)).
  - intros w m _ H. exact H.
  - intros w ms H. exact H.
  - intros w f H. exact H.
  - intros w f H. exact H.
  - intros w f H. exact H.
Qed.

(** X8.  The service keeps to its own Redis keys.  A key that starts
    neither with [user:pending:] nor with [user:completed:] holds after
    every run what it held before. *)
Theorem other_keys_are_untouched (evs : list event) (w : World) (k : string) :
  service_key k = false ->
  store (redis (run evs w)) !! k = store (redis w) !! k.
Proof.
  intros Hk. now apply (run_invariant (other_key_invariant w k Hk)).
Qed.

Lemma kept_in_on_conflict_update (p : pg.proposal) (now : Z) (rows : list Row) (r : Row) :
  kept_in rows r -> kept_in (pg.on_conflict_update p now rows) r.
Proof.
  intros (r' & Hin & Hid & He & Hc).
  induction rows as [|r0 rows IH]; [destruct Hin|].
  cbn [pg.on_conflict_update].
  destruct (pg.has_email (pg.p_email p) r0) eqn:Hm.
  - destruct Hin as [->|Hin].
    + exists (pg.do_update p now r'). split; [now left|]. now repeat split.
    + exists r'. split; [now right|]. now repeat split.
  - destruct Hin as [->|Hin].
    + exists r'. split; [now left|]. now repeat split.
    + destruct (IH Hin) as (r'' & Hin' & H'). exists r''. split; [now right | exact H'].
Qed.

Lemma kept_in_execute (st : pg.statement) (now : Z) (rows : list Row) (seq : Z) (r : Row) :
  kept_in rows r -> kept_in (fst (snd (pg.execute st now rows seq))) r.
Proof.
  intros H. destruct st; cbn [pg.execute snd fst]; try exact H.
  unfold pg.insert_user.
  destruct (pg.propose v1 v2 v3 v4 v5 v6) as [[[[[[c1 c2] c3] c4] c5] c6]|e]; [|exact H].
  destruct (pg.constrain c1 c2 c3 c4 c5 c6) as [p|e]; [|exact H].
  unfold pg.upsert.
  destruct (List.find (pg.has_email (pg.p_email p)) rows); cbn [fst snd].
  - now apply kept_in_on_conflict_update.
  - destruct H as (r' & Hin & H'). exists r'. split; [|exact H'].
    apply in_or_app. now left.
Qed.

Lemma kept_in_stable (r : Row) : stable (fun w => kept_in (users (postgres w)) r).
Proof.
  constructor.
  1-4, 6-9: intros w x H; exact H.
  intros st w H. unfold after, pg.client_query.
  pose proof (kept_in_execute st (clock w) _ (users_id_seq (postgres w)) r H) as Hk.
  now destruct (pg.execute st (clock w) (users (postgres w))
                  (users_id_seq (postgres w))) as [x [rows seq]].
Qed.

(** X9.  Rows are never deleted.  A row of the table is, after every run,
    still in the table under the same id, with the same email and the same
    creation time. *)
Theorem rows_are_never_deleted (evs : list event) (w : World) (r : Row) :
  In r (users (postgres w)) ->
  kept_in (users (postgres (run evs w))) r.
Proof.
  intros Hin. apply (run_keeps _ evs w (kept_in_stable r)).
  exists r. now repeat split.
Qed.

(* ================================================================== *)
(** * Further properties: reads and routes *)
(* ================================================================== *)




(** Without Redis the lookup throws before it looks at the table. *)
Lemma getUserByEmail_no_redis (email : string) (w : World) :
  redis_answers w = false ->
  exists e line, getUserByEmail email w = (Throw e, with_console (line :: console w) w).
Proof.
  unfold redis_answers, getUserByEmail. run_async.
  destruct (redisClient (redis w)); cbn.
  - destruct (redis_fault (redis w)); [|discriminate]. intros _. cbn. eauto.
  - intros _. eauto.
Qed.

(** X11.  GET /api/users/:email never throws and answers 200, 404 or 500:
    404 exactly when the lookup resolves to [null], 500 exactly when the
    lookup throws, and then with the fixed message, not the error's.  In
    particular it answers 500 whenever Redis does not answer, whatever the
    table holds, and changes neither the table nor the Redis keys then. *)
Theorem get_user_answers (email : string) (w : World) :
  exists resp,
    result (get_user email) w = Return resp /\
    (status resp = 200 \/ status resp = 404 \/ status resp = 500) /\
    (status resp = 200 <->
     exists d, result (getUserByEmail email) w = Return (Some d) /\ json resp = Found d) /\
    (status resp = 404 <-> result (getUserByEmail email) w = Return None) /\
    (status resp = 500 <-> exists e, result (getUserByEmail email) w = Throw e) /\
    (status resp = 500 -> json resp = Failure "Failed to fetch user") /\
    (redis_answers w = false ->
     status resp = 500 /\
     users (postgres (after (get_user email) w)) = users (postgres w) /\
     store (redis (after (get_user email) w)) = store (redis w)).
Proof.
  assert (Hnr : redis_answers w = false ->
                (exists e, result (getUserByEmail email) w = Throw e) /\
                users (postgres (after (get_user email) w)) = users (postgres w) /\
                store (redis (after (get_user email) w)) = store (redis w)).
  { intros Hr. destruct (getUserByEmail_no_redis email w Hr) as (e & line & He).
    unfold result, after, get_user, try_catch, bind. rewrite He. cbn. eauto. }
  unfold get_user in *. unfold result at 1, try_catch, bind at 1.
  rewrite (run_pair (getUserByEmail email) w).
  destruct (result (getUserByEmail email) w) as [[d|]|e] eqn:Hres; cbn;
    eexists; (split; [reflexivity|]); cbn [status json];
    repeat split; intros;
    repeat match goal with
           | H : exists _, _ |- _ => destruct H
           | H : _ /\ _ |- _ => destruct H
           | H : redis_answers w = false |- _ =>
               destruct (Hnr H) as ((? & ?) & ? & ?); clear H
           end;
    try discriminate; try lia; try assumption; try tauto; eauto.
Qed.

(** X12.  GET /api/users never throws.  A missing, unreadable or zero
    [limit] counts as 100 and a missing or unreadable [offset] as 0.  It
    answers 200 exactly when PostgreSQL answers and takes both numbers
    (from 0 to the largest bigint): the page is then the window of the
    table ordered newest first, at most [limit] rows, [count] being their
    number, and no row when the offset reaches the number of rows.
    Otherwise it answers 500 with the fixed message. *)
Theorem get_users_answers (limit_q offset_q : option Z) (w : World) :
  let limit := match limit_q with Some 0 | None => 100 | Some n => n end in
  let offset := match offset_q with Some n => n | None => 0 end in
  exists resp,
    result (get_users limit_q offset_q) w = Return resp /\
    (status resp = 200 <->
     postgres_answers w = true /\
     0 <= limit <= pg.bigint_max /\ 0 <= offset <= pg.bigint_max) /\
    (status resp = 200 ->
     exists page,
       json resp = Page (List.length page) page /\
       page = firstn (Z.to_nat limit)
                (skipn (Z.to_nat offset)
                   (pg.order_by_created_at_desc (users (postgres w)))) /\
       (List.length page <= Z.to_nat limit)%nat /\
       ((List.length (users (postgres w)) <= Z.to_nat offset)%nat -> page = [])) /\
    (status resp <> 200 -> resp = mkResponse 500 (Failure "Failed to fetch users")).
Proof.
  intros limit offset.
  assert (Hl : parseInt_or limit_q 100 = limit) by (subst limit; now destruct limit_q as [[]|]).
  assert (Ho : parseInt_or offset_q 0 = offset) by (subst offset; now destruct offset_q as [[]|]).
  unfold get_users. cbv zeta. rewrite Hl, Ho. clearbody limit offset.
  unfold result at 1, try_catch, bind at 1. rewrite (run_pair (getAllUsers _ _) w).
  destruct (postgres_answers w) eqn:Hp.
  - destruct (select_page_cases limit offset (users (postgres w)))
      as [(H1 & H2 & _)|[Hout _]].
    + rewrite (getAllUsers_answered limit offset w Hp H1 H2).
      eexists. split; [reflexivity|]. cbn [status json].
      split; [now split|]. split; [|intros H; now contradiction H].
      intros _. eexists. split; [reflexivity|]. split; [reflexivity|].
      split; [apply firstn_le_length|].
      intros Hlen. rewrite skipn_all2; [now rewrite firstn_nil|].
      now rewrite (Permutation_length (order_by_perm (users (postgres w)))).
    + destruct (getAllUsers_rejected limit offset w (or_intror Hout)) as [e He].
      rewrite He. eexists. split; [reflexivity|]. cbn [status json].
      split; [split; [discriminate | intros (_ & H1 & H2); lia]|].
      split; [discriminate | reflexivity].
  - destruct (getAllUsers_rejected limit offset w (or_introl Hp)) as [e He].
    rewrite He. eexists. split; [reflexivity|]. cbn [status json].
    split; [split; [discriminate | intros (H & _); discriminate]|].
    split; [discriminate | reflexivity].
Qed.

(** A body that does not validate is answered without touching a store. *)
Lemma post_users_invalid (o : jsobj) (e : error) (w : World) :
  validateUserData o = Throw e ->
  redis (after (post_users (Some o)) w) = redis w /\
  postgres (after (post_users (Some o)) w) = postgres w /\
  kafka (after (post_users (Some o)) w) = kafka w.
Proof.
  intros Hv.
  assert (H : exists lines, after (post_users (Some o)) w = with_console lines w).
  { unfold after, post_users, try_catch, bind. rewrite (submit_invalid o e w Hv).
    cbn. eauto. }
  destruct H as [lines ->]. now repeat split.
Qed.

(** X13.  POST /api/users never throws and answers 201 or 400.  It
    answers 201 exactly when the body is there and validates, Redis
    answers and the relay accepts; the answer then carries the validated
    email.  A body that does not validate is answered without a change to
    Redis, PostgreSQL or the relay; a missing body is answered 400 and
    nothing changes at all. *)
Theorem post_users_answers (req_body : option jsobj) (w : World) :
  exists resp,
    result (post_users req_body) w = Return resp /\
    (status resp = 201 \/ status resp = 400) /\
    (status resp = 201 <->
     exists o u, req_body = Some o /\ validateUserData o = Return u /\
                 redis_answers w = true /\ relay_accepts w = true) /\
    (forall o u,
       req_body = Some o -> validateUserData o = Return u -> status resp = 201 ->
       json resp = Accepted "User registration submitted successfully" (email u)) /\
    (status resp = 400 -> exists m, json resp = Failure m) /\
    (forall o e,
       req_body = Some o -> validateUserData o = Throw e ->
       redis (after (post_users req_body) w) = redis w /\
       postgres (after (post_users req_body) w) = postgres w /\
       kafka (after (post_users req_body) w) = kafka w) /\
    (req_body = None ->
     resp = mkResponse 400 (Failure "Request body is required") /\
     after (post_users req_body) w = w).
Proof.
  destruct req_body as [o|].
  - destruct (validateUserData o) as [u|e] eqn:Hv.
    + destruct (redis_answers w) eqn:Hr.
      * destruct (submit_staged o u w Hv Hr) as (_ & _ & Hrelay).
        destruct (relay_accepts w) eqn:Ha.
        -- destruct Hrelay as [Hres _].
           eexists. split; [apply (post_users_accepted o _ w Hres)|].
           cbn [status json submitted_message submitted_email].
           split; [now left|]. split; [split; [intros _; now exists o, u | reflexivity]|].
           split; [intros o' u' [= <-] Hv' _; congruence|].
           split; [discriminate|]. split; [intros o' e' [= <-] Hv'; congruence | discriminate].
        -- destruct Hrelay as [[e Hres] _].
           eexists. split; [apply (post_users_error o e w Hres)|].
           cbn [status json].
           split; [now right|].
           split; [split; [discriminate | intros (o' & u' & _ & _ & _ & Hx); discriminate]|].
           split; [discriminate|]. split; [intros _; eauto|].
           split; [intros o' e' [= <-] Hv'; congruence | discriminate].
      * destruct (submit_not_staged o u w Hv Hr) as ([e [Hres _]] & _).
        eexists. split; [apply (post_users_error o e w Hres)|].
        cbn [status json].
        split; [now right|].
        split; [split; [discriminate | intros (o' & u' & _ & _ & Hx & _); discriminate]|].
        split; [discriminate|]. split; [intros _; eauto|].
        split; [intros o' e' [= <-] Hv'; congruence | discriminate].
    + assert (Hres : result (submitUserData o) w = Throw e).
      { unfold result. now rewrite (submit_invalid o e w Hv). }
      eexists. split; [apply (post_users_error o e w Hres)|].
      cbn [status json].
      split; [now right|].
      split; [split; [discriminate | intros (o' & u' & [= <-] & Hx & _); congruence]|].
      split; [discriminate|]. split; [intros _; eauto|].
      split; [intros o' e' [= <-] _; now apply (post_users_invalid o e) | discriminate].
  - eexists. split; [reflexivity|]. cbn [status json].
    split; [now right|].
    split; [split; [discriminate | intros (o & u & Hx & _); discriminate]|].
    split; [discriminate|]. split; [intros _; eauto|].
    split; [discriminate | now split].
Qed.

(** What GET /api/health/ready answers, in terms of what the checks
    observe. *)
Lemma get_ready_answer (w : World) :
  exists body,
    result get_ready w =
      Return (if redis_answers w && postgres_answers w && producer_initialized w
              then 200 else 503, body) /\
    (redis_answers w && postgres_answers w && producer_initialized w = true ->
     body = mkReadiness "ready" None) /\
    (redis_answers w && postgres_answers w && producer_initialized w = false ->
     readiness_status body = "not ready" /\ readiness_error body <> None) /\
    (redisClient (redis w) = None ->
     readiness_error body =
       Some "Redis client not initialized. Call connectRedis() first.").
Proof.
  destruct w as [now [rc rf st] [pl pf us sq] [pr cs bf tp cm] con].
  destruct rc, rf, pl, pf, pr; eexists; (split; [reflexivity|]);
    cbn; repeat split; intros; try discriminate; try reflexivity.
Qed.

(** The two probes only look. *)
Lemma probes_change_nothing (w : World) :
  after get_ready w = w /\ after get_health w = w.
Proof.
  destruct w as [now [rc rf st] [pl pf us sq] [pr cs bf tp cm] con].
  destruct rc, rf, pl, pf, pr; split; reflexivity.
Qed.

(** X14.  Readiness and health agree.  GET /api/health/ready never throws
    and answers with the status code GET /api/health answers with: 200,
    with status [ready], exactly when Redis answers, PostgreSQL answers
    and the producer handle exists; otherwise 503 with status [not ready]
    and the message of the step that failed.  Neither probe changes
    anything. *)
Theorem readiness_agrees_with_health (w : World) :
  exists code body h,
    result get_ready w = Return (code, body) /\
    result get_health w = Return (code, h) /\
    after get_ready w = w /\ after get_health w = w /\
    (code = 200 <->
     redis_answers w = true /\ postgres_answers w = true /\
     producer_initialized w = true) /\
    (code = 200 -> body = mkReadiness "ready" None) /\
    (code <> 200 ->
     code = 503 /\ readiness_status body = "not ready" /\ readiness_error body <> None).
Proof.
  destruct (get_ready_answer w) as (body & Hres & Hok & Hno & _).
  eexists _, body, _. split; [exact Hres|]. split; [apply get_health_answer|].
  split; [apply probes_change_nothing|]. split; [apply probes_change_nothing|].
  destruct (redis_answers w), (postgres_answers w), (producer_initialized w);
    cbn [andb] in *; repeat split; intros; try discriminate; try lia; try tauto;
    try (now apply Hok); try (now apply Hno);
    try (destruct H as (? & ? & ?); discriminate).
Qed.

(** X15.  [initKafka] resolves, with both handles, exactly when the broker
    answers.  The producer handle is assigned before the connection is
    made: when the broker does not answer, [initKafka] logs and throws the
    broker's error, the consumer handle is left as it was, but
    [getProducer] succeeds from then on.  The topic logs and the group
    offset are not touched either way. *)
Theorem initKafka_outcome (w : World) :
  (broker_fault (kafka w) = None ->
   result initKafka w = Return (Handle, Handle) /\
   consumer (kafka (after initKafka w)) = Some Handle)
  /\
  (forall m, broker_fault (kafka w) = Some m ->
   result initKafka w = Throw (Error m) /\
   consumer (kafka (after initKafka w)) = consumer (kafka w) /\
   head (console (after initKafka w)) =
     Some (mkLog Stderr "Failed to initialize Kafka:" (Some m)))
  /\
  result getProducer (after initKafka w) = Return Handle /\
  topics (kafka (after initKafka w)) = topics (kafka w) /\
  committed (kafka (after initKafka w)) = committed (kafka w).
Proof.
  destruct w as [now r p [pr cs bf tp cm] con]. cbn [kafka broker_fault].
  destruct bf as [m|]; repeat split; intros; try discriminate; try reflexivity;
    match goal with H : Some _ = Some _ |- _ => injection H as <- end; reflexivity.
Qed.
End Service.

(* ================================================================== *)
(** * The properties at work on the sample data *)
(* ================================================================== *)

Lemma validateUserData_contract_witness :
  at_sign_syntax EmptyString = false /\
  all_fields_ok at_sign_syntax ann = true /\
  only_known_fields ann = true /\
  exists u, validateUserData at_sign_syntax ann = Return u /\
            forall f, prop ann (label f) = Some (JStr (field_of u f)).
Proof.
  split; [reflexivity|]. split; [reflexivity|]. split; [reflexivity|].
  apply (validateUserData_contract at_sign_syntax eq_refl ann world0); reflexivity.
Defined.

(** C8, as stated, fails: all six fields are present and satisfy the
    rules, and the validator throws. *)
Lemma validator_rejects_a_seventh_field :
  all_fields_ok at_sign_syntax ann_with_nickname = true /\
  validateUserData at_sign_syntax ann_with_nickname =
    Throw (Error ("Validation error: " +:+ dquote +:+ "nickname" +:+ dquote
                  +:+ " is not allowed")).
Proof. split; reflexivity. Qed.

Lemma submit_stages_before_publish_witness :
  validateUserData at_sign_syntax ann = Return ann_user /\
  redis_answers world0 = true /\
  store (redis (after (submitUserData at_sign_syntax ann) world0))
    !! "user:pending:ann@x.com" = Some (mkEntry (DUser ann_user) 3601000).
Proof.
  split; [reflexivity|]. split; [reflexivity|].
  exact (proj1 (proj1 (submit_stages_before_publish at_sign_syntax ann ann_user world0
                         eq_refl) eq_refl)).
Defined.

(** C3, as stated, fails: nothing is stored under [pending:<email>]. *)
Lemma nothing_staged_under_the_bare_key :
  validateUserData at_sign_syntax ann = Return ann_user /\
  result (submitUserData at_sign_syntax ann) world0 =
    Return (mkSubmitted true "User registration submitted successfully" "ann@x.com") /\
  store (redis (after (submitUserData at_sign_syntax ann) world0))
    !! "pending:ann@x.com" = None.
Proof. repeat split; reflexivity. Qed.

(** C4: the code at the failing inputs.  A valid submission while Redis,
    or the broker, cannot be reached is answered with status 400 and the
    dependency's own error message.  (An invalid submission is answered
    with 400 and the validation message; a read of an absent email resolves
    to [null], which the route answers with 404.) *)
Theorem post_users_answers_400_to_dependency_failures :
  validateUserData at_sign_syntax ann = Return ann_user /\
  result (post_users at_sign_syntax (Some ann)) world_redis_down =
    Return (mkResponse 400 (Failure "connect ECONNREFUSED 127.0.0.1:6379")) /\
  result (post_users at_sign_syntax (Some ann)) world_broker_down =
    Return (mkResponse 400 (Failure "Connection timeout")) /\
  result (post_users at_sign_syntax (Some [("firstName", JStr "A")])) world0 =
    Return (mkResponse 400
              (Failure ("Validation error: " +:+ dquote +:+ "firstName" +:+ dquote
                        +:+ " length must be at least 2 characters long"))) /\
  result (getUserByEmail "ann@x.com") world0 = Return None /\
  result (get_user "ann@x.com") world0 =
    Return (mkResponse 404 (Failure "User not found")).
Proof. repeat split; reflexivity. Qed.

(** The scenario of the specification: Ann submits, the consumer
    persists, the read returns row 1, the staging entry is gone and the
    completion entry is there. *)
Example pipeline_scenario :
  let w1 := after (submitUserData at_sign_syntax ann) world0 in
  let w2 := after startConsumer_cycle w1 in
  store (redis w1) !! "user:pending:ann@x.com" = Some (mkEntry (DUser ann_user) 3601000) /\
  kafkajs.log_of "user-registration" (kafka w1) = [ann_message] /\
  users (postgres w2) = [row_at 1 1000 "ann@x.com"] /\
  store (redis w2) !! "user:pending:ann@x.com" = None /\
  store (redis w2) !! "user:completed:ann@x.com" =
    Some (mkEntry (DSaved 1000 (Some (row_at 1 1000 "ann@x.com"))) 86401000) /\
  result (getUserByEmail "ann@x.com") w2 =
    Return (Some (DSaved 1000 (Some (row_at 1 1000 "ann@x.com")))).
Proof. repeat split; reflexivity. Qed.

(** The scenario of the specification: a given name of length 1 is
    rejected at once, with no staging write and no publish. *)
Example short_name_scenario :
  let o := [("firstName", JStr "A")] in
  (exists e, result (submitUserData at_sign_syntax o) world0 = Throw e) /\
  redis (after (submitUserData at_sign_syntax o) world0) = redis world0 /\
  kafka (after (submitUserData at_sign_syntax o) world0) = kafka world0.
Proof. repeat split; try reflexivity. eexists. reflexivity. Qed.

Lemma consumer_acknowledges_failed_messages_witness :
  kafkajs.log_of "user-registration" (kafka world_queued_pg_down)
    !! committed (kafka world_queued_pg_down) = Some ann_message /\
  result startConsumer_cycle world_queued_pg_down = Return tt /\
  committed (kafka (after startConsumer_cycle world_queued_pg_down)) = 1%nat /\
  head (console (after startConsumer_cycle world_queued_pg_down)) =
    Some (mkLog Stderr "Error processing Kafka message:"
            (Some "connect ECONNREFUSED 127.0.0.1:5432")) /\
  kafkajs.log_of "user-registration" (kafka world_poisoned)
    !! committed (kafka world_poisoned) = Some poison_message /\
  head (console (after startConsumer_cycle world_poisoned)) =
    Some (mkLog Stderr "Error processing Kafka message:" (Some "Unexpected token in JSON")).
Proof.
  split; [reflexivity|].
  pose proof (consumer_acknowledges_failed_messages ann_message world_queued_pg_down 1
                eq_refl) as (_ & _ & Hsave & Hr & Hc & _).
  split; [exact Hr|]. split; [exact Hc|].
  split; [exact (Hsave ann (Error "connect ECONNREFUSED 127.0.0.1:5432") eq_refl eq_refl)|].
  split; [reflexivity|].
  pose proof (consumer_acknowledges_failed_messages poison_message world_poisoned 1
                eq_refl) as (_ & Hparse & _).
  destruct (Hparse "{oops" eq_refl) as (e & He & Hlog).
  injection He as <-. exact Hlog.
Defined.

(** C1, as stated, fails: the upsert of the waiting message throws for a
    reason that would pass, yet the cycle moves the offset past the message;
    after PostgreSQL is back, further cycles fetch nothing and the table
    stays empty. *)
Lemma failed_message_is_acknowledged :
  kafkajs.log_of "user-registration" (kafka world_queued_pg_down)
    !! committed (kafka world_queued_pg_down) = Some ann_message /\
  result (saveUserToDatabase ann) world_queued_pg_down =
    Throw (Error "connect ECONNREFUSED 127.0.0.1:5432") /\
  committed (kafka (after startConsumer_cycle world_queued_pg_down)) = 1%nat /\
  users (postgres (after (startConsumer_cycles 3)
                     (with_pg_fault None
                        (after startConsumer_cycle world_queued_pg_down)))) = [].
Proof. repeat split; reflexivity. Qed.


Lemma getUserByEmail_cache_aside_witness :
  redis_answers world_three_rows = true /\
  postgres_answers world_three_rows = true /\
  result (getUserByEmail "bob@x.com") world_three_rows =
    Return (Some (DRow (row_at 2 3000 "bob@x.com"))) /\
  store (redis (after (getUserByEmail "bob@x.com") world_three_rows))
    !! "user:completed:bob@x.com" = Some (mkEntry (DRow (row_at 2 3000 "bob@x.com")) 3605000).
Proof.
  split; [reflexivity|]. split; [reflexivity|].
  pose proof (getUserByEmail_cache_aside "bob@x.com" world_three_rows eq_refl) as H.
  cbv zeta in H.
  change (redis_client.live (clock world_three_rows) (store (redis world_three_rows))
            ("user:completed:" +:+ "bob@x.com")) with (@None doc) in H.
  cbv iota in H. specialize (H eq_refl). destruct H as (_ & H).
  change (pg.select_user "bob@x.com" (users (postgres world_three_rows)))
    with (Return [row_at 2 3000 "bob@x.com"]) in H.
  cbv iota in H. destruct H as (_ & _ & Hres & Hstore).
  split; [exact Hres|]. rewrite Hstore. reflexivity.
Defined.

Lemma list_read_pages_witness :
  postgres_answers world_three_rows = true /\
  List.length (users (postgres world_three_rows)) = 3%nat /\
  exists a b c,
    result (get_users (Some 2) (Some 0)) world_three_rows =
      Return (mkResponse 200 (Page 2 [a; b])) /\
    Permutation [a; b; c] (users (postgres world_three_rows)) /\
    created_at c <= created_at b <= created_at a.
Proof.
  split; [reflexivity|]. split; [reflexivity|].
  exact (proj2 (proj2 (list_read_pages 2 0 world_three_rows eq_refl)) eq_refl).
Defined.

Lemma health_aggregate_witness :
  exists code h,
    result get_health world_redis_down = Return (code, h) /\
    code = 503 /\ redis_status (services h) = "unhealthy" /\
    postgres_status (services h) = "healthy" /\ kafka_status (services h) = "healthy".
Proof.
  destruct (health_aggregate world_redis_down)
    as (code & h & Hres & _ & _ & _ & _ & _ & _ & Hone & _).
  exists code, h. split; [exact Hres|]. apply Hone; reflexivity.
Defined.

Lemma published_messages_have_no_key_witness :
  result (sendMessage "user-registration" ann) world0 = Return tt /\
  kafkajs.log_of "user-registration"
    (kafka (after (sendMessage "user-registration" ann) world0)) =
    [mkMessage None (Json ann) 1000].
Proof.
  split; [reflexivity|].
  exact (proj1 (published_messages_have_no_key at_sign_syntax ann "user-registration"
                  ann world0) eq_refl).
Defined.

(** C7, as stated, fails: the message a submission publishes has no key. *)
Lemma submitted_message_has_no_key :
  kafkajs.log_of "user-registration"
    (kafka (after (submitUserData at_sign_syntax ann) world0)) = [ann_message] /\
  msg_key ann_message = None /\
  msg_key ann_message <> Some "ann@x.com".
Proof. repeat split; try reflexivity. discriminate. Qed.

Lemma relay_status_is_producer_handle_witness :
  reported_kafka_status (with_broker_fault (Some "Connection timeout") world0) =
    reported_kafka_status world0 /\
  reported_kafka_status
    (run at_sign_syntax [BrokerFault (Some "Connection timeout"); GetHealth]
       (after initKafka world_broker_down)) = "healthy".
Proof.
  split.
  - exact (proj1 (proj2 (relay_status_is_producer_handle at_sign_syntax world0
                           (Some "Connection timeout") []))).
  - exact (proj2 (proj2 (relay_status_is_producer_handle at_sign_syntax
                           world_broker_down None
                           [BrokerFault (Some "Connection timeout"); GetHealth]))).
Defined.

(* ================================================================== *)
(** * The further properties at work on the sample data *)
(* ================================================================== *)

Lemma validated_record_validates_again_witness :
  validateUserData at_sign_syntax ann = Return ann_user /\
  validateUserData at_sign_syntax (user_obj ann_user) = Return ann_user.
Proof.
  split; [reflexivity|].
  exact (validated_record_validates_again at_sign_syntax ann ann_user eq_refl).
Defined.



Lemma saved_row_is_read_back_witness :
  result (saveUserToDatabase ann) world_queued = Return (Some (row_at 1 1000 "ann@x.com")) /\
  clock world_queued <= 5000 < clock world_queued + 86400000 /\
  result (getUserByEmail "ann@x.com")
    (with_clock 5000 (after (saveUserToDatabase ann) world_queued)) =
    Return (Some (DSaved 1000 (Some (row_at 1 1000 "ann@x.com")))).
Proof.
  split; [reflexivity|]. split; [cbn; lia|].
  apply (saved_row_is_read_back ann world_queued (row_at 1 1000 "ann@x.com") 5000);
    [reflexivity | cbn; lia].
Defined.

Lemma row_is_kept_when_the_cache_fails_witness :
  postgres_answers world_redis_down = true /\
  redis_answers world_redis_down = false /\
  inserted ann world_redis_down =
    (Return [row_at 1 1000 "ann@x.com"], ([row_at 1 1000 "ann@x.com"], 1)) /\
  users (postgres (after (saveUserToDatabase ann) world_redis_down)) =
    [row_at 1 1000 "ann@x.com"] /\
  store (redis (after (saveUserToDatabase ann) world_redis_down)) =
    store (redis world_redis_down).
Proof.
  split; [reflexivity|]. split; [reflexivity|]. split; [reflexivity|].
  exact (proj2 (row_is_kept_when_the_cache_fails ann world_redis_down
                  [row_at 1 1000 "ann@x.com"] [row_at 1 1000 "ann@x.com"] 1
                  eq_refl eq_refl eq_refl)).
Defined.

Lemma unprocessable_message_is_dropped_witness :
  kafkajs.log_of "user-registration" (kafka world_poisoned)
    !! committed (kafka world_poisoned) = Some poison_message /\
  unprocessable poison_message world_poisoned /\
  users (postgres (after startConsumer_cycle world_poisoned)) = users (postgres world_poisoned) /\
  committed (kafka (after startConsumer_cycle world_poisoned)) = 1%nat.
Proof.
  split; [reflexivity|]. split; [exact I|].
  destruct (unprocessable_message_is_dropped poison_message world_poisoned eq_refl I)
    as (_ & Hu & _ & Hc).
  split; [exact Hu | exact Hc].
Defined.

Lemma relay_only_moves_forward_witness :
  (committed (kafka world_queued)
   <= List.length (kafkajs.log_of "user-registration" (kafka world_queued)))%nat /\
  (committed (kafka (run at_sign_syntax [ConsumerCycle; ConsumerCycle; Post (Some ann)]
                       world_queued))
   <= List.length
        (kafkajs.log_of "user-registration"
           (kafka (run at_sign_syntax [ConsumerCycle; ConsumerCycle; Post (Some ann)]
                     world_queued))))%nat.
Proof.
  assert (H : (committed (kafka world_queued)
               <= List.length (kafkajs.log_of "user-registration" (kafka world_queued)))%nat)
    by (cbn; lia).
  split; [exact H|].
  exact (proj2 (proj2 (relay_only_moves_forward at_sign_syntax
                         [ConsumerCycle; ConsumerCycle; Post (Some ann)] world_queued)) H).
Defined.

Lemma other_keys_are_untouched_witness :
  service_key "session:42" = false /\
  store (redis (run at_sign_syntax [Post (Some ann); ConsumerCycle; ConsumerCycle;
                                    GetUser "ann@x.com"] world_poisoned))
    !! "session:42" = store (redis world_poisoned) !! "session:42".
Proof.
  split; [reflexivity|].
  exact (other_keys_are_untouched at_sign_syntax _ world_poisoned "session:42" eq_refl).
Defined.

Lemma rows_are_never_deleted_witness :
  In (row_at 1 1000 "ann@x.com") (users (postgres world_persisted)) /\
  kept_in
    (users (postgres (run at_sign_syntax [Foreign ann_message; ConsumerCycle]
                        world_persisted)))
    (row_at 1 1000 "ann@x.com").
Proof.
  assert (H : In (row_at 1 1000 "ann@x.com") (users (postgres world_persisted)))
    by (left; reflexivity).
  split; [exact H|].
  exact (rows_are_never_deleted at_sign_syntax _ world_persisted _ H).
Defined.


Lemma get_user_answers_witness :
  redis_answers world_redis_down = false /\
  exists resp,
    result (get_user "ann@x.com") world_redis_down = Return resp /\
    status resp = 500 /\ json resp = Failure "Failed to fetch user".
Proof.
  split; [reflexivity|].
  destruct (get_user_answers "ann@x.com" world_redis_down)
    as (resp & Hres & _ & _ & _ & _ & Hmsg & Hnr).
  destruct (Hnr eq_refl) as (H500 & _).
  exists resp. split; [exact Hres|]. split; [exact H500 | exact (Hmsg H500)].
Defined.

Lemma get_users_answers_witness :
  (exists resp,
     result (get_users (Some 2) (Some 1)) world_three_rows = Return resp /\
     status resp = 200 /\
     json resp = Page 2 [row_at 3 2000 "cy@x.com"; row_at 1 1000 "ann@x.com"]) /\
  result (get_users (Some 100000000000000000000) None) world_three_rows =
    Return (mkResponse 500 (Failure "Failed to fetch users")).
Proof.
  split.
  - destruct (get_users_answers (Some 2) (Some 1) world_three_rows)
      as (resp & Hres & Hiff & Hpage & _).
    assert (H200 : status resp = 200).
    { apply Hiff. split; [reflexivity|]. unfold pg.bigint_max. lia. }
    destruct (Hpage H200) as (page & Hjson & Heq & _).
    exists resp. split; [exact Hres|]. split; [exact H200|].
    rewrite Hjson, Heq. reflexivity.
  - destruct (get_users_answers (Some 100000000000000000000) None world_three_rows)
      as (resp & Hres & Hiff & _ & Hno).
    rewrite Hres. f_equal. apply Hno. intros H200.
    apply Hiff in H200 as (_ & Hl & _). unfold pg.bigint_max in Hl. lia.
Defined.

Lemma post_users_answers_witness :
  validateUserData at_sign_syntax ann = Return ann_user /\
  redis_answers world0 = true /\ relay_accepts world0 = true /\
  exists resp,
    result (post_users at_sign_syntax (Some ann)) world0 = Return resp /\
    status resp = 201 /\
    json resp = Accepted "User registration submitted successfully" "ann@x.com".
Proof.
  split; [reflexivity|]. split; [reflexivity|]. split; [reflexivity|].
  destruct (post_users_answers at_sign_syntax (Some ann) world0)
    as (resp & Hres & _ & Hiff & Hjson & _).
  assert (H201 : status resp = 201).
  { apply Hiff. exists ann, ann_user. now repeat split. }
  exists resp. split; [exact Hres|]. split; [exact H201|].
  exact (Hjson ann ann_user eq_refl eq_refl H201).
Defined.

Lemma readiness_agrees_with_health_witness :
  redis_answers world_redis_down = false /\
  exists code body h,
    result get_ready world_redis_down = Return (code, body) /\
    result get_health world_redis_down = Return (code, h) /\
    code = 503 /\ readiness_status body = "not ready".
Proof.
  split; [reflexivity|].
  destruct (readiness_agrees_with_health world_redis_down)
    as (code & body & h & Hready & Hhealth & _ & _ & Hiff & _ & Hno).
  assert (Hne : code <> 200).
  { intros H200. apply Hiff in H200 as (Hr & _). discriminate Hr. }
  destruct (Hno Hne) as (H503 & Hstatus & _).
  exists code, body, h. now repeat split.
Defined.

Lemma initKafka_outcome_witness :
  broker_fault (kafka world_broker_down) = Some "Connection timeout" /\
  result initKafka world_broker_down = Throw (Error "Connection timeout") /\
  result getProducer (after initKafka world_broker_down) = Return Handle.
Proof.
  split; [reflexivity|].
  destruct (initKafka_outcome world_broker_down) as (_ & Hfail & Hprod & _).
  destruct (Hfail "Connection timeout" eq_refl) as (Hres & _).
  split; [exact Hres | exact Hprod].
Defined.
